(** * Diff sanitisation, parsing and correlation of the Bitbucket PR reviewer

    A shallow embedding of
      - [services/sanitization_service.py] (with the rule set of
        [config/settings.py]),
      - [services/diff_parser_service.py],
      - the feedback correlation and the preview of
        [mcp_server/tools/integrated_review_tool.py], the feedback
        splitter and the preview of
        [mcp_server/tools/auto_post_comments_tool.py],
      - [services/matching_service.py],
        [services/platform_detection_service.py], the reading of the
        environment in [config/settings.py] and the posting loop of
        [mcp_server/tools/post_comments_tool.py].

    Python [str] values are modelled as lists of characters whose code
    points are below 256 ([ascii] read as Latin-1).  The regular
    expressions of the sources are values of a small regex syntax, run by a
    backtracking matcher that follows the priorities of Python's [re]
    (greedy and lazy repetition, leftmost alternative first). *)

From Stdlib Require Import List Ascii String Bool Arith ZArith Lia.
Import ListNotations.

Set Implicit Arguments.

(* ------------------------------------------------------------------ *)
(** ** Text *)

Module Text.

Definition text := list ascii.

Definition str (s : string) : text := list_ascii_of_string s.

Definition code (a : ascii) : nat := nat_of_ascii a.

Definition nl : ascii := ascii_of_nat 10.
Definition dquote : ascii := ascii_of_nat 34.
Definition squote : ascii := ascii_of_nat 39.

Definition in_range (lo hi : nat) (a : ascii) : bool :=
  (lo <=? code a) && (code a <=? hi).

Definition one_of (cs : list nat) (a : ascii) : bool :=
  existsb (Nat.eqb (code a)) cs.

(** [str.isspace] and the class [\s] on code points below 256. *)
Definition is_space (a : ascii) : bool :=
  in_range 9 13 a || in_range 28 32 a || one_of [133; 160] a.

(** The class [\d]: decimal digits. *)
Definition is_digit (a : ascii) : bool := in_range 48 57 a.

Definition is_upper (a : ascii) : bool := in_range 65 90 a.
Definition is_lower (a : ascii) : bool := in_range 97 122 a.
Definition is_alnum (a : ascii) : bool := is_digit a || is_upper a || is_lower a.

(** The class [\w]: alphanumeric characters and the underscore; below 256
    the non-ASCII alphanumerics are the Latin-1 letters, the ordinal
    indicators, the micro sign, the superscript digits and the vulgar
    fractions. *)
Definition is_word (a : ascii) : bool :=
  is_alnum a || one_of [95; 170; 178; 179; 181; 185; 186] a
  || in_range 188 190 a || in_range 192 214 a || in_range 216 246 a
  || in_range 248 255 a.

Fixpoint text_eqb (s t : text) : bool :=
  match s, t with
  | [], [] => true
  | a :: s', b :: t' => Ascii.eqb a b && text_eqb s' t'
  | _, _ => false
  end.

(** [strip_prefix p s]: the rest of [s] after its prefix [p]. *)
Fixpoint strip_prefix (p s : text) : option text :=
  match p with
  | [] => Some s
  | a :: p' =>
      match s with
      | [] => None
      | b :: s' => if Ascii.eqb a b then strip_prefix p' s' else None
      end
  end.

(** [s.startswith(p)] *)
Definition startswith (p s : text) : bool :=
  match strip_prefix p s with Some _ => true | None => false end.

(** [needle in s] *)
Fixpoint contains (needle s : text) : bool :=
  startswith needle s ||
  match s with
  | [] => false
  | _ :: s' => contains needle s'
  end.

(** [s.split('\n')] *)
Fixpoint split_lines (s : text) : list text :=
  match s with
  | [] => [[]]
  | a :: s' =>
      if Ascii.eqb a nl then [] :: split_lines s'
      else match split_lines s' with
           | l :: ls => (a :: l) :: ls
           | [] => [[a]]
           end
  end.

(** ['\n'.join(ls)] *)
Fixpoint join_lines (ls : list text) : text :=
  match ls with
  | [] => []
  | [l] => l
  | l :: ls' => l ++ nl :: join_lines ls'
  end.

Fixpoint lstrip (s : text) : text :=
  match s with
  | a :: s' => if is_space a then lstrip s' else s
  | [] => []
  end.

(** [s.strip()] *)
Definition strip (s : text) : text := rev (lstrip (rev (lstrip s))).

(** [int(s)] on a non-empty run of decimal digits. *)
Definition int_of_digits (s : text) : Z :=
  fold_left (fun acc a => (10 * acc + Z.of_nat (code a - 48))%Z) s 0%Z.

Definition count_nl (s : text) : nat :=
  List.length (filter (Ascii.eqb nl) s).

End Text.
Import Text.

(* ------------------------------------------------------------------ *)
(** ** Regular expressions *)

Module Regex.

Inductive regex : Type :=
| Eps : regex
| Str : text -> regex                    (* a literal string *)
| Cls : (ascii -> bool) -> regex         (* one character of a class *)
| Seq : regex -> regex -> regex
| Alt : regex -> regex -> regex          (* r1|r2, r1 tried first *)
| Star : regex -> regex                  (* r*, greedy *)
| LazyStar : regex -> regex              (* r*?, lazy *)
| Group : nat -> regex -> regex          (* capture group number n *)
| Bol : regex                            (* ^ *)
| Eol : regex.                           (* $ *)

Definition Plus (r : regex) : regex := Seq r (Star r).
Definition LazyPlus (r : regex) : regex := Seq r (LazyStar r).
Definition Opt (r : regex) : regex := Alt r Eps.

Fixpoint Rep (n : nat) (r : regex) : regex :=
  match n with
  | 0 => Eps
  | S n' => Seq r (Rep n' r)
  end.

(** [r{n,}] *)
Definition AtLeast (n : nat) (r : regex) : regex := Seq (Rep n r) (Star r).

Fixpoint seqs (rs : list regex) : regex :=
  match rs with
  | [] => Eps
  | [r] => r
  | r :: rs' => Seq r (seqs rs')
  end.

(** [.] without DOTALL *)
Definition Dot : regex := Cls (fun a => negb (Ascii.eqb a nl)).
Definition Chr (a : ascii) : regex := Cls (Ascii.eqb a).
Definition NotOneOf (cs : list ascii) : regex :=
  Cls (fun a => negb (existsb (Ascii.eqb a) cs)).
Definition OneOf (cs : list ascii) : regex :=
  Cls (fun a => existsb (Ascii.eqb a) cs).

(** Captures: the most recent binding of a group comes first. *)
Definition caps := list (nat * text).

Fixpoint group (n : nat) (c : caps) : text :=
  match c with
  | [] => []
  | (m, w) :: c' => if Nat.eqb n m then w else group n c'
  end.

Section Matcher.

Variable R : Type.

(** A continuation receives the captures and the unread rest. *)
Definition cont := caps -> text -> option R.

Definition orelse (x y : option R) : option R :=
  match x with
  | Some _ => x
  | None => y
  end.

(** Greedy repetition: another iteration is preferred to leaving the loop;
    an iteration that reads nothing ends the loop. *)
Fixpoint greedy (step : cont -> cont) (k : cont) (fuel : nat) : cont :=
  fun c s =>
    match fuel with
    | 0 => k c s
    | S f =>
        orelse
          (step (fun c' s' =>
                   if List.length s' <? List.length s
                   then greedy step k f c' s' else None) c s)
          (k c s)
    end.

(** Lazy repetition: leaving the loop is preferred. *)
Fixpoint lazy (step : cont -> cont) (k : cont) (fuel : nat) : cont :=
  fun c s =>
    match fuel with
    | 0 => k c s
    | S f =>
        orelse
          (k c s)
          (step (fun c' s' =>
                   if List.length s' <? List.length s
                   then lazy step k f c' s' else None) c s)
    end.

(** [m n0 r k c s]: match [r] at the front of [s], the unread part of a
    subject of length [n0], then continue with [k]; the first success in
    backtracking order is the result. *)
Fixpoint m (n0 : nat) (r : regex) (k : cont) (c : caps) (s : text)
  {struct r} : option R :=
  match r with
  | Eps => k c s
  | Str w =>
      match strip_prefix w s with
      | Some s' => k c s'
      | None => None
      end
  | Cls p =>
      match s with
      | a :: s' => if p a then k c s' else None
      | [] => None
      end
  | Seq r1 r2 => m n0 r1 (m n0 r2 k) c s
  | Alt r1 r2 => orelse (m n0 r1 k c s) (m n0 r2 k c s)
  | Star r1 => greedy (m n0 r1) k (List.length s) c s
  | LazyStar r1 => lazy (m n0 r1) k (List.length s) c s
  | Group n r1 =>
      m n0 r1
        (fun c' s' =>
           k ((n, firstn (List.length s - List.length s') s) :: c') s')
        c s
  | Bol => if List.length s =? n0 then k c s else None
  | Eol =>
      match s with
      | [] => k c s
      | [a] => if Ascii.eqb a nl then k c s else None
      | _ => None
      end
  end.

End Matcher.

(** One match attempt at the front of [s]: the captures and the unread rest. *)
Definition exec (n0 : nat) (r : regex) (s : text) : option (caps * text) :=
  m n0 r (fun c s' => Some (c, s')) [] s.

(** [pattern.match(s)] *)
Definition re_match (r : regex) (s : text) : option caps :=
  option_map fst (exec (List.length s) r s).

(** A subject is cut into pieces by the successive non-overlapping matches
    of a pattern, as [sub], [findall] and [finditer] do. *)
Inductive piece : Type :=
| Lit : ascii -> piece                   (* a character outside any match *)
| Hit : caps -> text -> piece.           (* a match: captures and span *)

(** [scan n0 r skip s]: [skip] counts the characters of [s] that belong to
    the match already reported. *)
Fixpoint scan (n0 : nat) (r : regex) (skip : nat) (s : text) : list piece :=
  match s with
  | [] =>
      match skip with
      | 0 => match exec n0 r [] with
             | Some (c, _) => [Hit c []]
             | None => []
             end
      | S _ => []
      end
  | a :: s' =>
      match skip with
      | S n => scan n0 r n s'
      | 0 =>
          match exec n0 r s with
          | Some (c, rest) =>
              match List.length s - List.length rest with
              | 0 => Hit c [] :: Lit a :: scan n0 r 0 s'
              | S n => Hit c (firstn (S n) s) :: scan n0 r n s'
              end
          | None => Lit a :: scan n0 r 0 s'
          end
      end
  end.

Definition pieces (r : regex) (s : text) : list piece :=
  scan (List.length s) r 0 s.

(** The text a piece stands for in the subject. *)
Definition raw (p : piece) : text :=
  match p with
  | Lit a => [a]
  | Hit _ w => w
  end.

(** Replacement templates: literal text and group references [\n]. *)
Inductive titem : Type :=
| TLit : text -> titem
| TRef : nat -> titem.

Definition template := list titem.

Definition expand (t : template) (c : caps) : text :=
  flat_map (fun i => match i with
                     | TLit w => w
                     | TRef n => group n c
                     end) t.

Definition render (t : template) (p : piece) : text :=
  match p with
  | Lit a => [a]
  | Hit c _ => expand t c
  end.

(** [pattern.sub(template, s)] *)
Definition sub (r : regex) (t : template) (s : text) : text :=
  flat_map (render t) (pieces r s).

Definition hits (ps : list piece) : list (caps * text) :=
  flat_map (fun p => match p with
                     | Lit _ => []
                     | Hit c w => [(c, w)]
                     end) ps.

(** The number of capture groups of a pattern ([pattern.groups]). *)
Fixpoint groups (r : regex) : nat :=
  match r with
  | Seq r1 r2 | Alt r1 r2 => groups r1 + groups r2
  | Star r1 | LazyStar r1 => groups r1
  | Group _ r1 => S (groups r1)
  | _ => 0
  end.

End Regex.
Import Regex.

(* ------------------------------------------------------------------ *)
(** ** The shipped sanitisation rules ([config/settings.py])

    In the comments [QUOTE] stands for the two quote characters of the
    source classes (single and double quote), and a blank separates a star
    from a closing parenthesis. *)

Module Settings.

Definition ws : regex := Cls is_space.
Definition word : regex := Cls is_word.
Definition quote : regex := OneOf [squote; dquote].
Definition not_quote : regex := NotOneOf [squote; dquote].
Definition alnum : regex := Cls is_alnum.

(** [(a)(b)(c)]: prefix, credential, suffix. *)
Definition three (a b c : regex) : regex :=
  Seq (Group 1 a) (Seq (Group 2 b) (Group 3 c)).

(** [(kw\s*[:=]\s*[QUOTE])] *)
Definition assign_prefix (kw : string) : regex :=
  seqs [Str (str kw); Star ws; OneOf [":"; "="]%char; Star ws; quote].

(** [(kw\s*[:=]\s*[QUOTE])([^QUOTE]* )([QUOTE])] *)
Definition assign_rule (kw : string) : regex :=
  three (assign_prefix kw) (Star not_quote) quote.

(** [(export\s+\w*KW\w*\s*=\s*[QUOTE])([^QUOTE]* )([QUOTE])] *)
Definition export_rule (kw : string) : regex :=
  three
    (seqs [Str (str "export"); Plus ws; Star word; Str (str kw); Star word;
           Star ws; Chr "="; Star ws; quote])
    (Star not_quote) quote.

(** [(\w*KW\w*\s*=\s*[QUOTE])([^QUOTE]* )([QUOTE])] *)
Definition variable_rule (kw : string) : regex :=
  three
    (seqs [Star word; Str (str kw); Star word; Star ws; Chr "="; Star ws;
           quote])
    (Star not_quote) quote.

(** [(prefix[a-zA-Z0-9]{n,})] *)
Definition key_rule (prefix : string) (n : nat) : regex :=
  Group 1 (Seq (Str (str prefix)) (AtLeast n alnum)).

(** [(prefix[a-zA-Z0-9-]+)] *)
Definition slack_rule (prefix : string) : regex :=
  Group 1 (Seq (Str (str prefix))
               (Plus (Cls (fun a => is_alnum a || Ascii.eqb a "-")))).

(** [(scheme://[^:]+:)([^@]+)(@)] *)
Definition url_rule (scheme : string) : regex :=
  three
    (seqs [Str (str scheme); Str (str "://"); Plus (NotOneOf [":"%char]);
           Chr ":"])
    (Plus (NotOneOf ["@"%char])) (Chr "@").

(** [[a-zA-Z0-9_-]] *)
Definition jwt_char : regex :=
  Cls (fun a => is_alnum a || Ascii.eqb a "_" || Ascii.eqb a "-").

Definition patterns : list regex :=
  [ (* common credential patterns *)
    assign_rule "password";
    assign_rule "api_key";
    assign_rule "token";
    assign_rule "secret";
    assign_rule "key";
    assign_rule "auth";
    assign_rule "pass";
    assign_rule "pwd";
    (* environment variable patterns *)
    export_rule "PASSWORD";
    export_rule "SECRET";
    export_rule "KEY";
    export_rule "TOKEN";
    export_rule "AUTH";
    variable_rule "PASSWORD";
    variable_rule "SECRET";
    variable_rule "KEY";
    variable_rule "TOKEN";
    variable_rule "AUTH";
    (* API keys and tokens *)
    key_rule "sk-" 20;
    key_rule "sk-proj-" 20;
    key_rule "pk_" 20;
    key_rule "pk_test_" 20;
    slack_rule "xoxb-";
    slack_rule "xoxp-";
    key_rule "ghp_" 36;
    key_rule "gho_" 36;
    key_rule "ghu_" 36;
    key_rule "ghs_" 36;
    key_rule "ghr_" 36;
    (* database credentials *)
    url_rule "mongodb";
    url_rule "postgres";
    url_rule "mysql";
    url_rule "redis";
    (* AWS access key: (AKIA[0-9A-Z]{16}) *)
    Group 1 (Seq (Str (str "AKIA"))
                 (Rep 16 (Cls (fun a => is_digit a || is_upper a))));
    (* JWT: (eyJ[a-zA-Z0-9_-]+\.[a-zA-Z0-9_-]+\.[a-zA-Z0-9_-]+) *)
    Group 1 (seqs [Str (str "eyJ"); Plus jwt_char; Chr "."; Plus jwt_char;
                   Chr "."; Plus jwt_char]);
    (* generic patterns *)
    (* (password\s*[:=]\s*[QUOTE])([a-zA-Z0-9+/]{20,})([QUOTE]) *)
    three (assign_prefix "password")
          (AtLeast 20 (Cls (fun a => is_alnum a || Ascii.eqb a "+"
                                     || Ascii.eqb a "/")))
          quote;
    (* (secret\s*[:=]\s*[QUOTE])([a-f0-9]{32,})([QUOTE]) *)
    three (assign_prefix "secret")
          (AtLeast 32 (Cls (fun a => in_range 97 102 a || is_digit a)))
          quote;
    (* (key\s*[:=]\s*[QUOTE])([a-zA-Z0-9_]{8,})([QUOTE]) *)
    three (assign_prefix "key")
          (AtLeast 8 (Cls (fun a => is_alnum a || Ascii.eqb a "_")))
          quote ].

Definition replacement : text := str "[REDACTED]".

End Settings.

(* ------------------------------------------------------------------ *)
(** ** [SanitizationService] *)

Module Sanitizer.

Definition redacted : text := str "[REDACTED]".

(** [r'\1[REDACTED]\3'] *)
Definition keep_ends : template := [TRef 1; TLit redacted; TRef 3].

(** ['[REDACTED]'] *)
Definition whole : template := [TLit redacted].

Section Service.

(** [self.patterns] and [self.settings.sanitization.replacement] *)
Variable patterns : list regex.
Variable replacement : text.

(** One turn of the loop of [sanitize_diff]. *)
Definition apply_rule (sanitized : text) (pattern : regex) : text :=
  if groups pattern =? 3 then sub pattern keep_ends sanitized
  else if groups pattern =? 1 then sub pattern whole sanitized
  else sub pattern [TLit replacement] sanitized.

Definition sanitize_with (diff : option text) : text :=
  match diff with
  | None => []
  | Some d => fold_left apply_rule patterns d
  end.

(** [pattern.findall(text)], reduced to what [detect_credentials] keeps of
    it: group 2 of a three-group pattern, the group of a one-group pattern,
    the whole match otherwise (the shipped patterns have one or three
    groups). *)
Definition found (text : text) (pattern : regex) : list Text.text :=
  let matches := hits (pieces pattern text) in
  if groups pattern =? 3 then map (fun h => group 2 (fst h)) matches
  else if groups pattern =? 1 then map (fun h => group 1 (fst h)) matches
  else map snd matches.

Definition detect_with (text : text) : list Text.text :=
  flat_map (found text) patterns.

End Service.

Definition sanitize_diff : option text -> text :=
  sanitize_with Settings.patterns Settings.replacement.

Definition detect_credentials : text -> list text :=
  detect_with Settings.patterns.

(** [sanitize] of the specification, on a text that is present. *)
Definition sanitize (t : text) : text := sanitize_diff (Some t).

End Sanitizer.
Import Sanitizer.

(* ------------------------------------------------------------------ *)
(** ** [DiffParserService] *)

Module DiffParser.

Record DiffLocation : Type := mkLocation {
  file_path : text;
  line_number : Z;
  content : text;
  is_addition : bool
}.

Definition digit : regex := Cls is_digit.

(** [(?:\[REDACTED\])?] *)
Definition redacted_opt : regex := Opt (Str (str "[REDACTED]")).

(** [^diff --git a(?:\[REDACTED\])?/(.+?) b(?:\[REDACTED\])?/(.+?)$] *)
Definition file_header_pattern : regex :=
  seqs [Bol; Str (str "diff --git a"); redacted_opt; Str (str "/");
        Group 1 (LazyPlus Dot); Str (str " b"); redacted_opt; Str (str "/");
        Group 2 (LazyPlus Dot); Eol].

(** [^diff --git a/(.+?) b/(.+?)$] *)
Definition original_file_header_pattern : regex :=
  seqs [Bol; Str (str "diff --git a/"); Group 1 (LazyPlus Dot);
        Str (str " b/"); Group 2 (LazyPlus Dot); Eol].

(** [^@@ -(\d+)(?:,\d+)? \+(\d+)(?:,\d+)? @@] *)
Definition hunk_header_pattern : regex :=
  seqs [Bol; Str (str "@@ -"); Group 1 (Plus digit);
        Opt (Seq (Chr ",") (Plus digit)); Str (str " +");
        Group 2 (Plus digit); Opt (Seq (Chr ",") (Plus digit));
        Str (str " @@")].

(** [^\+] *)
Definition addition_pattern : regex := Seq Bol (Chr "+").

(** [^-] *)
Definition removal_pattern : regex := Seq Bol (Chr "-").

(** The local variables of the parse loop. *)
Record state : Type := mkState {
  current_file : option text;
  current_line_number : option Z;
  lines_since_hunk : Z;
  locations : list DiffLocation
}.

Definition initial : state := mkState None None 0 [].

(** Truth value of a Python string. *)
Definition truthy (s : text) : bool :=
  match s with
  | [] => false
  | _ :: _ => true
  end.

Definition matches (r : regex) (line : text) : bool :=
  match re_match r line with
  | Some _ => true
  | None => false
  end.

(** The body of the loop of [parse_diff]. *)
Definition parse_diff_step (st : state) (line : text) : state :=
  match re_match file_header_pattern line with
  | Some file_match =>
      mkState (Some (group 2 file_match)) None 0 (locations st)
  | None =>
      match re_match hunk_header_pattern line with
      | Some hunk_match =>
          mkState (current_file st)
                  (Some (int_of_digits (group 2 hunk_match))) 0
                  (locations st)
      | None =>
          match current_file st, current_line_number st with
          | Some file, Some number =>
              if negb (truthy file) then st
              else if matches addition_pattern line then
                mkState (current_file st) (current_line_number st)
                        (lines_since_hunk st + 1)
                        (locations st ++
                         [mkLocation file (number + lines_since_hunk st)
                                     (tl line) true])
              else if matches removal_pattern line then st
              else if startswith (str " ") line then
                mkState (current_file st) (current_line_number st)
                        (lines_since_hunk st + 1) (locations st)
              else st
          | _, _ => st
          end
      end
  end.

Definition parse_diff (diff : option text) : list DiffLocation :=
  match diff with
  | None => []
  | Some [] => []
  | Some d => locations (fold_left parse_diff_step (split_lines d) initial)
  end.

(** The body of the loop of [parse_original_diff]. *)
Definition parse_original_diff_step (st : state) (line : text) : state :=
  match re_match original_file_header_pattern line with
  | Some file_match =>
      mkState (Some (group 2 file_match)) None 0 (locations st)
  | None =>
      match re_match hunk_header_pattern line with
      | Some hunk_match =>
          mkState (current_file st)
                  (Some (int_of_digits (group 2 hunk_match))) 0
                  (locations st)
      | None =>
          match current_file st, current_line_number st with
          | Some file, Some number =>
              if negb (truthy file) then st
              else if matches addition_pattern line then
                mkState (current_file st) (current_line_number st)
                        (lines_since_hunk st + 1)
                        (locations st ++
                         [mkLocation file (number + lines_since_hunk st)
                                     (tl line) true])
              else if matches removal_pattern line then st
              else if startswith (str " ") line then
                mkState (current_file st) (current_line_number st)
                        (lines_since_hunk st + 1) (locations st)
              else st
          | _, _ => st
          end
      end
  end.

Definition parse_original_diff (diff : option text) : list DiffLocation :=
  match diff with
  | None => []
  | Some [] => []
  | Some d =>
      locations (fold_left parse_original_diff_step (split_lines d) initial)
  end.

(** [parse] of the specification, on the text of a sanitised diff. *)
Definition parse (d : text) : list DiffLocation := parse_diff (Some d).

End DiffParser.
Import DiffParser.

(* ------------------------------------------------------------------ *)
(** ** Feedback splitting and correlation
       ([integrated_review_tool.py], [auto_post_comments_tool.py]) *)

Module Review.

(** The dictionary built for one issue. *)
Record issue : Type := mkIssue {
  severity : text;
  title : text;
  description : text;
  code_snippet : text;
  issue_file_path : option text;
  issue_line_number : option Z
}.

Definition set_description (i : issue) (d : text) : issue :=
  mkIssue (severity i) (title i) d (code_snippet i) (issue_file_path i)
          (issue_line_number i).

Definition set_code_snippet (i : issue) (s : text) : issue :=
  mkIssue (severity i) (title i) (description i) s (issue_file_path i)
          (issue_line_number i).

(** The local variables of the two feedback splitters. *)
Record fstate : Type := mkF {
  issues : list issue;
  current_issue : option issue;
  current_code : list text;
  in_code_block : bool
}.

Definition finitial : fstate := mkF [] None [] false.

(** [if current_issue: issues.append(current_issue)], then a new issue. *)
Definition open_issue (st : fstate) (i : issue) : fstate :=
  mkF (match current_issue st with
       | Some old => issues st ++ [old]
       | None => issues st
       end)
      (Some i) (current_code st) (in_code_block st).

(** The branch of a code fence, the same in both splitters. *)
Definition fence (st : fstate) : fstate :=
  let in_code := negb (in_code_block st) in
  match current_issue st with
  | Some i =>
      if negb in_code
      then mkF (issues st) (Some (set_code_snippet i (join_lines (current_code st))))
               [] in_code
      else mkF (issues st) (current_issue st) (current_code st) in_code
  | None => mkF (issues st) (current_issue st) (current_code st) in_code
  end.

Definition finish (st : fstate) : list issue :=
  match current_issue st with
  | Some i => issues st ++ [i]
  | None => issues st
  end.

(** [any(marker in line for marker in markers)] *)
Definition any_in (markers : list string) (line : text) : bool :=
  existsb (fun marker => contains (str marker) line) markers.

Definition ticks : text := str "```".

(** The body of the loop of [_parse_ai_feedback]. *)
Definition ai_step (st : fstate) (line0 : text) : fstate :=
  let line := strip line0 in
  if any_in ["**P0**"; "P0:"; "P0 "; "P0-"]%string line then
    open_issue st (mkIssue (str "P0") (str "Critical Issue") line [] None None)
  else if any_in ["**P1**"; "P1:"; "P1 "; "P1-"]%string line then
    open_issue st (mkIssue (str "P1") (str "Important Issue") line [] None None)
  else if any_in ["**P2**"; "P2:"; "P2 "; "P2-"]%string line then
    open_issue st (mkIssue (str "P2") (str "Minor Issue") line [] None None)
  else if startswith ticks line then fence st
  else if in_code_block st then
    mkF (issues st) (current_issue st) (current_code st ++ [line]) true
  else
    match current_issue st with
    | Some i =>
        if truthy line && negb (text_eqb (description i) line)
        then mkF (issues st)
                 (Some (set_description i (description i ++ str " " ++ line)))
                 (current_code st) (in_code_block st)
        else st
    | None => st
    end.

Definition _parse_ai_feedback (feedback : text) : list issue :=
  finish (fold_left ai_step (split_lines feedback) finitial).

(** The test of a severity line in [_parse_review_feedback]. *)
Definition marked (p : string) (line : text) : bool :=
  startswith (str "**" ++ str p) line
  || contains (str p ++ str ":") line
  || contains (str p ++ str " ") line.

Definition unknown : text := str "Unknown".

(** The body of the loop of [_parse_review_feedback]. *)
Definition review_step (st : fstate) (line0 : text) : fstate :=
  let line := strip line0 in
  if marked "P0" line then
    open_issue st (mkIssue (str "P0") (str "Critical Issue") line []
                           (Some unknown) (Some 0%Z))
  else if marked "P1" line then
    open_issue st (mkIssue (str "P1") (str "Important Issue") line []
                           (Some unknown) (Some 0%Z))
  else if marked "P2" line then
    open_issue st (mkIssue (str "P2") (str "Minor Issue") line []
                           (Some unknown) (Some 0%Z))
  else if startswith ticks line then fence st
  else if in_code_block st then
    mkF (issues st) (current_issue st) (current_code st ++ [line]) true
  else
    match current_issue st with
    | Some i =>
        if text_eqb (description i) line then st
        else mkF (issues st)
                 (Some (set_description i (description i ++ str " " ++ line)))
                 (current_code st) (in_code_block st)
    | None => st
    end.

Definition _parse_review_feedback (feedback : text) : list issue :=
  finish (fold_left review_step (split_lines feedback) finitial).

(** A structured comment of [parse_ai_feedback_with_line_numbers]. *)
Record comment : Type := mkComment {
  comment_content : text;
  comment_severity : text;
  comment_file_path : text;
  comment_line_number : Z;
  is_summary : bool
}.

(** [(\w+\.swift)] and [(\w+\.pbxproj)] *)
Definition name_pattern (extension : string) : regex :=
  Group 1 (seqs [Plus (Cls is_word); Chr "."; Str (str extension)]).

(** [re.findall] with a pattern of one group. *)
Definition findall1 (r : regex) (s : text) : list text :=
  map (fun h => group 1 (fst h)) (hits (pieces r s)).

Definition file_matches (description : text) : list text :=
  findall1 (name_pattern "swift") description
  ++ findall1 (name_pattern "pbxproj") description.

(** [for location in diff_locations: if test(location): ...; break] *)
Fixpoint first_location (test : DiffLocation -> bool)
  (diff_locations : list DiffLocation) : option DiffLocation :=
  match diff_locations with
  | [] => None
  | location :: rest =>
      if test location then Some location else first_location test rest
  end.

(** The loop over the file names, left at the first match. *)
Fixpoint match_by_name (names : list text)
  (diff_locations : list DiffLocation) : option DiffLocation :=
  match names with
  | [] => None
  | file_name :: rest =>
      match first_location (fun l => contains file_name (file_path l))
                           diff_locations with
      | Some location => Some location
      | None => match_by_name rest diff_locations
      end
  end.

Definition matched_location (diff_locations : list DiffLocation) (i : issue)
  : option DiffLocation :=
  match match_by_name (file_matches (description i)) diff_locations with
  | Some location => Some location
  | None =>
      if truthy (code_snippet i)
      then first_location
             (fun l => contains (strip (code_snippet i)) (content l))
             diff_locations
      else None
  end.

(** The body of the loop over the issues. *)
Definition correlate (diff_locations : list DiffLocation) (i : issue)
  : comment :=
  match matched_location diff_locations i with
  | Some location =>
      mkComment (description i) (severity i) (file_path location)
                (line_number location) false
  | None => mkComment (description i) (severity i) unknown 0 false
  end.

Inductive response : Type :=
| Failure : text -> response             (* the value of the key [error] *)
| Comments : list comment -> response.   (* the value of the key [comments] *)

(** The functions from a feedback to issues that a name stands for in the
    module [integrated_review_tool.py]: the module defines
    [_parse_ai_feedback] and imports no such function, so that any other
    name is not defined there ([_parse_review_feedback] is a function of
    [auto_post_comments_tool.py]). *)
Definition module_globals (name : string) : option (text -> list issue) :=
  if String.eqb name "_parse_ai_feedback" then Some _parse_ai_feedback
  else None.

(** The message of the [NameError] that the use of an undefined name
    raises. *)
Definition name_error (name : string) : text :=
  str "name '" ++ str name ++ str "' is not defined".

(** [parse_ai_feedback_with_line_numbers], given the diff that the
    service returns.  The tool calls the splitter by the name
    [_parse_review_feedback]; an exception raised in the body is caught
    and answered with the key [error]. *)
Definition parse_ai_feedback_with_line_numbers
  (diff : option text) (ai_feedback : text) : response :=
  match diff with
  | None | Some [] => Failure (str "Failed to get PR diff")
  | Some d =>
      let diff_locations := parse_diff (Some d) in
      match module_globals "_parse_review_feedback" with
      | None =>
          Failure (str "Failed to parse AI feedback: "
                   ++ name_error "_parse_review_feedback")
      | Some parse_feedback =>
          match parse_feedback ai_feedback with
          | [] => Failure (str "No issues found")
          | found_issues =>
              Comments (map (correlate diff_locations) found_issues)
          end
      end
  end.

End Review.
Import Review.

(* ------------------------------------------------------------------ *)
(** ** More of [str] and [re] *)

Module TextOps.

(** [str.lower] on one character: below 256 the cased characters are the
    ASCII letters and the Latin-1 letters (the multiplication sign, 215,
    is not one of them). *)
Definition lower_char (a : ascii) : ascii :=
  if in_range 65 90 a || in_range 192 214 a || in_range 216 222 a
  then ascii_of_nat (code a + 32)
  else a.

(** [s.lower()] *)
Definition lower (s : text) : text := map lower_char s.

(** [s.split(sep)] for a separator of one character. *)
Fixpoint split_on (sep : ascii) (s : text) : list text :=
  match s with
  | [] => [[]]
  | a :: s' =>
      if Ascii.eqb a sep then [] :: split_on sep s'
      else match split_on sep s' with
           | l :: ls => (a :: l) :: ls
           | [] => [[a]]
           end
  end.

End TextOps.

Module Search.
Import TextOps.

(** A literal character of a pattern compiled with [re.IGNORECASE]: it
    reads the characters that have the same lower case. *)
Definition ichar (c : ascii) : regex :=
  Cls (fun x => Ascii.eqb (lower_char x) (lower_char c)).

(** A literal string of a pattern compiled with [re.IGNORECASE]. *)
Definition IStr (w : string) : regex := seqs (map ichar (str w)).

(** The first position of [s], from the left, where the pattern matches. *)
Fixpoint search_from (n0 : nat) (r : regex) (s : text)
  : option (caps * text) :=
  match exec n0 r s with
  | Some h => Some h
  | None =>
      match s with
      | [] => None
      | _ :: s' => search_from n0 r s'
      end
  end.

(** [re.search(r, s)] *)
Definition re_search (r : regex) (s : text) : option (caps * text) :=
  search_from (List.length s) r s.

End Search.

(* ------------------------------------------------------------------ *)
(** ** [DiffParserService]: the queries over the parsed locations *)

Module DiffQueries.
Import TextOps Search.

(** The inner loop of [find_issue_locations]: the patterns are tried in
    order and the loop is left at the first one found in the content.  The
    patterns are given as [re.search] runs them, compiled with
    [re.IGNORECASE]. *)
Fixpoint any_pattern (issue_patterns : list regex) (content : text) : bool :=
  match issue_patterns with
  | [] => false
  | pattern :: rest =>
      match re_search pattern content with
      | Some _ => true
      | None => any_pattern rest content
      end
  end.

Definition find_issue_locations (diff : option text)
  (issue_patterns : list regex) : list DiffLocation :=
  fold_left
    (fun issue_locations location =>
       if any_pattern issue_patterns (content location)
       then issue_locations ++ [location]
       else issue_locations)
    (parse_diff diff) [].

(** A Python [dict] from paths to lists of locations, in insertion order. *)
Definition changes := list (text * list DiffLocation).

(** [key in d] *)
Definition has_key (key : text) (d : changes) : bool :=
  existsb (fun kv => text_eqb (fst kv) key) d.

(** [d[key].append(location)], the key being present. *)
Fixpoint append_at (key : text) (location : DiffLocation) (d : changes)
  : changes :=
  match d with
  | [] => []
  | (k, ls) :: d' =>
      if text_eqb k key then (k, ls ++ [location]) :: d'
      else (k, ls) :: append_at key location d'
  end.

(** The body of the loop of [get_file_changes]. *)
Definition get_file_changes_step (file_changes : changes)
  (location : DiffLocation) : changes :=
  let file_changes' :=
    if negb (has_key (file_path location) file_changes)
    then file_changes ++ [(file_path location, [])]
    else file_changes in
  append_at (file_path location) location file_changes'.

Definition get_file_changes (diff : option text) : changes :=
  fold_left get_file_changes_step (parse_diff diff) [].

(** The patterns of [extract_documentation_issues]:
    [//\s*TODO], [//\s*FIXME], [/\*\*], [//\s*], [///], [// MARK:]. *)
Definition documentation_patterns : list regex :=
  [ seqs [IStr "//"; Star Settings.ws; IStr "TODO"];
    seqs [IStr "//"; Star Settings.ws; IStr "FIXME"];
    IStr "/**";
    seqs [IStr "//"; Star Settings.ws];
    IStr "///";
    IStr "// MARK:" ].

Definition extract_documentation_issues (diff : option text)
  : list DiffLocation :=
  find_issue_locations diff documentation_patterns.

End DiffQueries.

(* ------------------------------------------------------------------ *)
(** ** The previews built from the feedback
       ([parse_and_preview_comments] of [integrated_review_tool.py],
        [auto_post_review_comments] of [auto_post_comments_tool.py]) *)

Module Preview.

(** A comment of the answer.  The summary comment is kept as the four
    numbers its text is formatted from: the issues found and those of
    severity P0, P1 and P2. *)
Inductive entry : Type :=
| Inline (file_path : option text) (line_number : option Z)
         (content : text) (severity : text)
| Summary (total p0 p1 p2 : nat).

(** The content of the comment made for one issue; the issue has a code
    snippet and no suggestion. *)
Definition issue_content (i : issue) : text :=
  str "**" ++ severity i ++ str " Issue:** " ++ title i ++ [nl; nl]
  ++ str "**Code:**" ++ [nl] ++ str "```" ++ [nl] ++ code_snippet i ++ [nl]
  ++ str "```" ++ [nl; nl]
  ++ str "**Issue:** " ++ description i ++ [nl; nl]
  ++ str "**Suggestion:** " ++ str "Please review and fix.".

(** The body of the loop over the issues: the keys [file_path] and
    [line_number] of an issue are present, so that their defaults are
    not used. *)
Definition issue_comment (i : issue) : entry :=
  Inline (issue_file_path i) (issue_line_number i) (issue_content i)
         (severity i).

(** [len([i for i in issues if i.get("severity") == level])] *)
Definition count_level (level : string) (found : list issue) : nat :=
  List.length (filter (fun i => text_eqb (severity i) (str level)) found).

(** The keys [total_comments], [severity_breakdown] (P0, P1, P2) and
    [comments] of an answer. *)
Record answer : Type := mkAnswer {
  total_comments : nat;
  severity_breakdown : nat * nat * nat;
  comments : list entry
}.

(** What both tools do with the issues of the feedback; [None] stands for
    the answer without comments, given when no issue is found. *)
Definition preview_of (found : list issue) : option answer :=
  match found with
  | [] => None
  | _ :: _ =>
      let p0 := count_level "P0" found in
      let p1 := count_level "P1" found in
      let p2 := count_level "P2" found in
      let all := map issue_comment found
                 ++ [Summary (List.length found) p0 p1 p2] in
      Some (mkAnswer (List.length all) (p0, p1, p2) all)
  end.

Definition parse_and_preview_comments (ai_review_feedback : text)
  : option answer :=
  preview_of (_parse_ai_feedback ai_review_feedback).

Definition auto_post_review_comments (review_feedback : text)
  : option answer :=
  preview_of (_parse_review_feedback review_feedback).

End Preview.

(* ------------------------------------------------------------------ *)
(** ** [MatchingService] ([services/matching_service.py]) *)

Module Matching.
Import TextOps.

(** [models/pull_request.py]; the two dates are kept as numbers. *)
Record PullRequest : Type := mkPullRequest {
  id : text;
  title : text;
  description : text;
  author : text;
  status : text;
  repository : text;
  created_at : Z;
  updated_at : Z;
  source_branch : option text;
  destination_branch : option text
}.

Definition _find_exact_matches (identifier : text)
  (prs : list PullRequest) : list PullRequest :=
  let identifier_lower := lower identifier in
  filter (fun pr =>
            text_eqb identifier_lower (lower (title pr))
            || text_eqb identifier_lower (lower (id pr))
            || contains identifier_lower (lower (title pr)))
         prs.

Section Fuzzy.

(** [fuzz.ratio] of the library fuzzywuzzy: a score between 0 and 100. *)
Variable ratio : text -> text -> nat.

(** [self.threshold] *)
Definition threshold : nat := 80.

(** [sorted(matches, key=score, reverse=True)]: the sort is stable, so
    that of two elements with the same score the one that comes first in
    [matches] comes first in the result. *)
Fixpoint insert_by (score : PullRequest -> nat) (x : PullRequest)
  (sorted : list PullRequest) : list PullRequest :=
  match sorted with
  | [] => [x]
  | y :: rest =>
      if score y <=? score x then x :: y :: rest
      else y :: insert_by score x rest
  end.

Definition sorted_desc (score : PullRequest -> nat)
  (matches : list PullRequest) : list PullRequest :=
  fold_right (insert_by score) [] matches.

Definition _find_fuzzy_matches (identifier : text)
  (prs : list PullRequest) : list PullRequest :=
  let matches :=
    filter (fun pr =>
              threshold <=? ratio (lower identifier) (lower (title pr)))
           prs in
  sorted_desc (fun x => ratio (lower identifier) (lower (title x))) matches.

(** [find_pr], on the pull requests that the Bitbucket service returns. *)
Definition find_pr (identifier : text) (prs : list PullRequest)
  : option PullRequest :=
  match _find_exact_matches identifier prs with
  | [pr] => Some pr
  | _ :: _ :: _ => None
  | [] =>
      match _find_fuzzy_matches identifier prs with
      | [pr] => Some pr
      | _ => None
      end
  end.

(** [find_multiple_prs], on the pull requests that the service returns. *)
Definition find_multiple_prs (identifier : text) (prs : list PullRequest)
  : list PullRequest :=
  match _find_exact_matches identifier prs with
  | [] => _find_fuzzy_matches identifier prs
  | exact_matches => exact_matches
  end.

End Fuzzy.

End Matching.

(* ------------------------------------------------------------------ *)
(** ** [PlatformDetectionService]
       ([services/platform_detection_service.py]) *)

Module Platform.
Import TextOps.

Inductive PlatformType : Type := ANDROID | IOS | BACKEND | UNKNOWN.

(** The fields of the service. *)
Record PlatformDetectionService : Type := mkService {
  android_repo_patterns : list string;
  android_file_patterns : list string;
  ios_repo_patterns : list string;
  ios_file_patterns : list string;
  backend_repo_patterns : list string;
  backend_file_patterns : list string
}.

(** [__init__] *)
Definition new : PlatformDetectionService :=
  mkService
    ["android"; "consumer-android"; "provider-android"]%string
    [".kt"; ".kts"; ".java"; "build.gradle"; "AndroidManifest.xml";
     "activity"; "fragment"; "viewmodel"; "compose"; "jetpack"]%string
    ["ios"; "consumer-ios"; "provider-ios"]%string
    [".swift"; ".m"; ".h"; "Info.plist"; "Podfile"; "Package.swift";
     "swiftui"; "uikit"; "viewmodel"; "viewcontroller"]%string
    ["service"; "api"; "backend"; "server"; "gateway"; "auth"; "billing";
     "payment"; "communication"; "appointment"; "consultation";
     "scheduler"]%string
    [".py"; ".js"; ".ts"; ".java"; ".go"; ".php"; ".rb"; ".cs";
     "controller"; "service"; "repository"; "model"; "api"; "endpoint";
     "dockerfile"; "requirements.txt"; "package.json"; "pom.xml"]%string.

(** [score += 1] under a condition. *)
Definition bump (hit : bool) (score : nat) : nat :=
  if hit then S score else score.

(** The body of the loop of [_detect_from_files], on the three scores. *)
Definition score_step (self : PlatformDetectionService)
  (scores : nat * nat * nat) (file_path : text) : nat * nat * nat :=
  let '(android_score, ios_score, backend_score) := scores in
  let file_lower := lower file_path in
  (bump (any_in (android_file_patterns self) file_lower) android_score,
   bump (any_in (ios_file_patterns self) file_lower) ios_score,
   bump (any_in (backend_file_patterns self) file_lower) backend_score).

Definition _detect_from_files (self : PlatformDetectionService)
  (file_changes : list text) : PlatformType :=
  let '(android_score, ios_score, backend_score) :=
    fold_left (score_step self) file_changes (0, 0, 0) in
  if (ios_score <? android_score) && (backend_score <? android_score)
  then ANDROID
  else if (android_score <? ios_score) && (backend_score <? ios_score)
  then IOS
  else if (android_score <? backend_score) && (ios_score <? backend_score)
  then BACKEND
  else UNKNOWN.

(** [file_changes] is [None] when the argument is left out; an empty list
    counts as left out. *)
Definition detect_platform (self : PlatformDetectionService)
  (repository : text) (file_changes : option (list text)) : PlatformType :=
  let repo_lower := lower repository in
  if any_in (android_repo_patterns self) repo_lower then ANDROID
  else if any_in (ios_repo_patterns self) repo_lower then IOS
  else if any_in (backend_repo_patterns self) repo_lower then BACKEND
  else match file_changes with
       | Some ((_ :: _) as files) => _detect_from_files self files
       | _ => UNKNOWN
       end.

End Platform.

(* ------------------------------------------------------------------ *)
(** ** [load_settings] ([config/settings.py]): what is read from the
       environment *)

Module Config.
Import TextOps.

(** The environment variables that are set. *)
Definition environ : Type := string -> option text.

(** [os.getenv(name, default)] *)
Definition getenv (env : environ) (name : string) (default : text) : text :=
  match env name with
  | Some value => value
  | None => default
  end.

Record BitbucketConfig : Type := mkBitbucketConfig {
  username : text;
  app_password : text;
  workspace : text;
  repositories : list text
}.

(** The parts of [Settings] that depend on the environment; the other
    parts are constants, of which [Settings.patterns] and
    [Settings.replacement] are the sanitization. *)
Record Loaded : Type := mkLoaded {
  bitbucket : BitbucketConfig;
  log_level : text
}.

(** [print(message, file=sys.stderr)] under a condition. *)
Definition warn (condition : bool) (message : string) : list string :=
  if condition then [message] else [].

(** [load_settings]: the lines written to the standard error and the
    settings. *)
Definition load_settings (env : environ) : list string * Loaded :=
  let repos_str := getenv env "BITBUCKET_REPOSITORIES" [] in
  let repositories :=
    if negb (truthy repos_str) then
      let single_repo := getenv env "BITBUCKET_REPOSITORY" [] in
      if truthy single_repo then [single_repo] else []
    else
      map strip
          (filter (fun repo => truthy (strip repo)) (split_on "," repos_str))
  in
  let username := getenv env "BITBUCKET_USERNAME" [] in
  let app_password := getenv env "BITBUCKET_APP_PASSWORD" [] in
  let workspace := getenv env "BITBUCKET_WORKSPACE" [] in
  let debug_mode :=
    existsb (text_eqb (lower (getenv env "DEBUG" [])))
            [str "true"; str "1"; str "yes"] in
  (warn (negb (truthy username) && debug_mode)
        "Warning: BITBUCKET_USERNAME not set"
   ++ warn (negb (truthy app_password) && debug_mode)
           "Warning: BITBUCKET_APP_PASSWORD not set"
   ++ warn (negb (truthy workspace) && debug_mode)
           "Warning: BITBUCKET_WORKSPACE not set"
   ++ warn (match repositories with [] => true | _ => false end && debug_mode)
           "Warning: No repositories configured (BITBUCKET_REPOSITORIES or BITBUCKET_REPOSITORY)",
   mkLoaded (mkBitbucketConfig username app_password workspace repositories)
            (getenv env "LOG_LEVEL" (str "INFO"))).

End Config.

(* ------------------------------------------------------------------ *)
(** ** Posting the comments
       ([post_review_comments] of [mcp_server/tools/post_comments_tool.py],
        [models/comment.py], the payload of [BitbucketService.post_comment]) *)

Module Posting.

(** [models/comment.py] *)
Inductive SeverityLevel : Type := P0 | P1 | P2 | SUMMARY.

(** [SeverityLevel(raw)]; [None] stands for the [ValueError] raised on any
    other value. *)
Definition SeverityLevel_of (raw : text) : option SeverityLevel :=
  if text_eqb raw (str "P0") then Some P0
  else if text_eqb raw (str "P1") then Some P1
  else if text_eqb raw (str "P2") then Some P2
  else if text_eqb raw (str "SUMMARY") then Some SUMMARY
  else None.

(** [severity.value] *)
Definition value (severity : SeverityLevel) : text :=
  match severity with
  | P0 => str "P0"
  | P1 => str "P1"
  | P2 => str "P2"
  | SUMMARY => str "SUMMARY"
  end.

(** A comment as the tool receives it: a dictionary with the keys
    [content] and [severity], and with [line_number], [file_path] and
    [is_summary] when they are given; the values have the types that
    [Comment] declares. *)
Record comment_data : Type := mkData {
  data_content : text;
  data_severity : text;
  data_line_number : option Z;
  data_file_path : option text;
  data_is_summary : option bool
}.

Record Comment : Type := mkCommentObject {
  content : text;
  severity : SeverityLevel;
  line_number : option Z;
  file_path : option text;
  is_summary : bool
}.

(** The first loop of [post_review_comments]; [None] when a severity is
    refused. *)
Fixpoint comment_objects (comments : list comment_data)
  : option (list Comment) :=
  match comments with
  | [] => Some []
  | comment_data :: rest =>
      match SeverityLevel_of (data_severity comment_data) with
      | None => None
      | Some level =>
          match comment_objects rest with
          | None => None
          | Some objects =>
              Some (mkCommentObject
                      (data_content comment_data) level
                      (data_line_number comment_data)
                      (data_file_path comment_data)
                      (match data_is_summary comment_data with
                       | Some flag => flag
                       | None => false
                       end)
                    :: objects)
          end
      end
  end.

(** A call of [bitbucket_service.post_comment]: the comment, the line
    number and the file path. *)
Record call : Type := mkCall {
  sent : text;
  at_line : option Z;
  at_path : option text
}.

(** What a call does: it returns a truth value or raises an exception with
    a message. *)
Inductive outcome : Type :=
| Returned (success : bool)
| Raised (message : text).

(** The service, which may answer a call according to the calls made
    before it. *)
Definition service : Type := list call -> call -> outcome.

Definition prefix : text := str "[AI - Review]".

(** [formatted_comment] *)
Definition formatted_comment (comment : Comment) : text :=
  if negb (startswith prefix (content comment))
  then prefix ++ str " " ++ value (severity comment) ++ str ": "
       ++ content comment
  else content comment.

(** [error_msg] of the handler of the loop. *)
Definition error_msg (message : text) : text :=
  if contains (str "line_form") message
  then str "API parameter error - this has been fixed in the latest version"
  else if contains (str "401") message
  then str "Authentication failed - check Bitbucket credentials"
  else if contains (str "403") message
  then str "Permission denied - check repository access"
  else if contains (str "404") message
  then str "PR not found - check PR ID and repository"
  else message.

(** An entry of [posted_comments]: severity, content, line number. *)
Definition posted_entry (comment : Comment) : text * text * option Z :=
  (value (severity comment),
   if 100 <? List.length (content comment)
   then firstn 100 (content comment) ++ str "..."
   else content comment,
   line_number comment).

(** The calls made so far and the two lists of the second loop. *)
Record pstate : Type := mkP {
  calls : list call;
  posted_comments : list (text * text * option Z);
  failed_comments : list (text * text)
}.

(** The body of the second loop; the lines it prints are left out. *)
Definition post_step (post_comment : service) (st : pstate)
  (comment : Comment) : pstate :=
  if text_eqb (value (severity comment)) (str "P2") then st
  else if is_summary comment
          || text_eqb (value (severity comment)) (str "SUMMARY") then st
  else
    let c := mkCall (formatted_comment comment) (line_number comment)
                    (file_path comment) in
    match post_comment (calls st) c with
    | Returned true =>
        mkP (calls st ++ [c])
            (posted_comments st ++ [posted_entry comment])
            (failed_comments st)
    | Returned false =>
        mkP (calls st ++ [c]) (posted_comments st)
            (failed_comments st
             ++ [(value (severity comment), str "Failed to post comment")])
    | Raised message =>
        mkP (calls st ++ [c]) (posted_comments st)
            (failed_comments st
             ++ [(value (severity comment), error_msg message)])
    end.

(** The answers of [post_review_comments]. *)
Inductive answer : Type :=
| ConfirmationRequired
| Failed
| Done (success : bool) (comments_posted comments_failed : nat)
       (posted : list (text * text * option Z))
       (failed : list (text * text)).

(** [post_review_comments]: the calls made to the service, in their order,
    and the answer. *)
Definition post_review_comments (post_comment : service)
  (comments : list comment_data) (confirmation : bool)
  : list call * answer :=
  if negb confirmation then ([], ConfirmationRequired)
  else
    match comment_objects comments with
    | None => ([], Failed)
    | Some objects =>
        let st := fold_left (post_step post_comment) objects (mkP [] [] []) in
        (calls st,
         Done (List.length (failed_comments st) =? 0)
              (List.length (posted_comments st))
              (List.length (failed_comments st))
              (posted_comments st) (failed_comments st))
    end.

(** The payload that [BitbucketService.post_comment] sends. *)
Record payload : Type := mkPayload {
  raw : text;
  inline : option (text * Z)
}.

(** The comment is inline when [line_number and file_path] holds: the
    number is neither [None] nor 0 and the path neither [None] nor empty. *)
Definition payload_of (c : call) : payload :=
  mkPayload (sent c)
    (match at_line c, at_path c with
     | Some n, Some p =>
         if negb (n =? 0)%Z && truthy p then Some (p, n) else None
     | _, _ => None
     end).

End Posting.

(* ------------------------------------------------------------------ *)
(** ** Vocabulary of the statements *)

Module RegexSpec.

(** [iter P]: zero or more rounds of [P], threading the captures. *)
Inductive iter (P : caps -> text -> caps -> Prop) : caps -> text -> caps -> Prop :=
| iter_nil : forall c, iter P c [] c
| iter_cons : forall c w1 c1 w2 c2,
    P c w1 c1 -> iter P c1 w2 c2 -> iter P c (w1 ++ w2) c2.

(** [den r c w c']: [r] can read exactly [w] and turn the captures [c] into
    [c'] (anchors read nothing). *)
Fixpoint den (r : regex) (c : caps) (w : text) (c' : caps) : Prop :=
  match r with
  | Eps | Bol | Eol => w = [] /\ c' = c
  | Str t => w = t /\ c' = c
  | Cls p => exists a, w = [a] /\ p a = true /\ c' = c
  | Seq r1 r2 =>
      exists w1 w2 c1, w = w1 ++ w2 /\ den r1 c w1 c1 /\ den r2 c1 w2 c'
  | Alt r1 r2 => den r1 c w c' \/ den r2 c w c'
  | Star r1 | LazyStar r1 => iter (den r1) c w c'
  | Group n r1 => exists c1, den r1 c w c1 /\ c' = (n, w) :: c1
  end.

Definition is_suffix (s' s : text) : Prop := exists w, s = w ++ s'.

End RegexSpec.
Import RegexSpec.

Module SanitizerSpec.




(** The lines of two texts set side by side: the last line of the first
    runs on into the first line of the second. *)
Definition glue (xs ys : list text) : list text :=
  removelast xs ++ (last xs [] ++ hd [] ys) :: tl ys.

(** The parts of a match for the application of the rule [r]: what stands
    before the credential (group 1 of a rule of three groups), the
    credential, which is the span that the application replaces (group 2
    of a rule of three groups, the whole match of any other rule), and
    what stands after it (group 3). *)
Definition lead (r : regex) (p : piece) : text :=
  match p with
  | Hit c _ => if groups r =? 3 then group 1 c else []
  | Lit _ => []
  end.

Definition credential (r : regex) (p : piece) : text :=
  match p with
  | Hit c w => if groups r =? 3 then group 2 c else w
  | Lit _ => []
  end.




(** The newlines inside the credentials that one application of [r]
    replaces in [T]. *)
Definition merged_by (r : regex) (T : text) : nat :=
  list_sum (map (fun p => count_nl (credential r p)) (pieces r T)).

(** The same over the run of the rules, each applied to what the rules
    before it return. *)
Fixpoint merged (rules : list regex) (replacement T : text) : nat :=
  match rules with
  | [] => 0
  | r :: rest =>
      merged_by r T + merged rest replacement (apply_rule replacement T r)
  end.

(** The line under way at the end of a text. *)
Definition last_line (s : text) : text := last (split_lines s) [].

(** A credential that follows the text [before] stands inside a line: it
    holds no newline, and the line under way is not empty and starts with
    neither [d] nor [@], the first characters of the two headers. *)
Definition inside_line (before credential : text) : bool :=
  (count_nl credential =? 0) &&
  match last_line before with
  | [] => false
  | a :: _ => negb (Ascii.eqb a "d") && negb (Ascii.eqb a "@")
  end.

(** Every credential among the pieces stands inside a line; [before] is
    the text that precedes the pieces. *)
Fixpoint inside_lines (r : regex) (before : text) (ps : list piece) : bool :=
  match ps with
  | [] => true
  | p :: rest =>
      match p with
      | Lit _ => true
      | Hit _ _ => inside_line (before ++ lead r p) (credential r p)
      end
      && inside_lines r (before ++ raw p) rest
  end.

(** Every credential that the run of the rules over [T] replaces stands
    inside a line of the text the rule is applied to. *)
Fixpoint redacts_inside_lines (rules : list regex) (replacement T : text)
  : bool :=
  match rules with
  | [] => true
  | r :: rest =>
      inside_lines r [] (pieces r T)
      && redacts_inside_lines rest replacement (apply_rule replacement T r)
  end.


End SanitizerSpec.
Import SanitizerSpec.

Module ParserSpec.

(** The line is taken as a file header by [parse_diff]. *)
Definition is_file_header (line : text) : bool :=
  matches file_header_pattern line.

(** The line is taken as a hunk header by [parse_diff]: its new-file start. *)
Definition hunk_start (line : text) : option Z :=
  if is_file_header line then None
  else option_map (fun c => int_of_digits (group 2 c))
                  (re_match hunk_header_pattern line).

Definition is_header (line : text) : bool :=
  is_file_header line ||
  match hunk_start line with Some _ => true | None => false end.

(** The loop has read the lines [xs] and still waits for one of the two
    headers: no file header is among [xs], or no hunk header follows a
    file header of [xs]. *)
Definition awaiting (xs : list text) : Prop :=
  (forall x, In x xs -> is_file_header x = false) \/
  (exists pre fh body,
     xs = pre ++ fh :: body /\ is_file_header fh = true /\
     forall x, In x body -> hunk_start x = None).

(** Addition and context lines, the lines that occupy a line of the new
    file. *)
Definition advancing (line : text) : bool :=
  startswith (str "+") line || startswith (str " ") line.

Definition count_advancing (lines : list text) : Z :=
  Z.of_nat (List.length (filter advancing lines)).

(** The state of the loop of [parse_diff] after the given lines. *)
Definition run (lines : list text) : state :=
  fold_left parse_diff_step lines initial.



(** What the loop does with a line that is no header. *)
Definition plain_step (st : state) (line : text) : state :=
  match current_file st, current_line_number st with
  | Some file, Some number =>
      if negb (truthy file) then st
      else if startswith (str "+") line then
        mkState (current_file st) (current_line_number st)
                (lines_since_hunk st + 1)
                (locations st ++
                 [mkLocation file (number + lines_since_hunk st)
                             (tl line) true])
      else if startswith (str "-") line then st
      else if startswith (str " ") line then
        mkState (current_file st) (current_line_number st)
                (lines_since_hunk st + 1) (locations st)
      else st
  | _, _ => st
  end.


(** [f] is the new-file path of the last file header among [xs]. *)
Definition last_header (xs : list text) (f : text) : Prop :=
  exists p1 fh c p2,
    xs = p1 ++ fh :: p2 /\
    re_match file_header_pattern fh = Some c /\ f = group 2 c /\
    (forall l, In l p2 -> is_file_header l = false).

(** The invariant of the parse loop, after the lines [xs]. *)
Definition inv (xs : list text) (st : state) : Prop :=
  (forall f, current_file st = Some f ->
     truthy f = true /\ last_header xs f) /\
  (forall n, current_line_number st = Some n ->
     exists pre h body, xs = pre ++ h :: body /\ hunk_start h = Some n /\
       (forall l, In l body -> is_header l = false) /\
       (forall f, current_file st = Some f ->
          lines_since_hunk st = count_advancing body /\
          last_header pre f)).

(** [loc] is the location of an addition line [l] of [xs]: [l] lies in the
    hunk opened by the header [h] with new-file start [n], after the lines
    [body] of that hunk, under the file header [fh]. *)
Definition emitted_at (xs : list text) (loc : DiffLocation) : Prop :=
  exists p1 fh c p2 h n body l rest,
    xs = (p1 ++ fh :: p2) ++ h :: body ++ l :: rest /\
    re_match file_header_pattern fh = Some c /\
    (forall x, In x p2 -> is_file_header x = false) /\
    hunk_start h = Some n /\
    (forall x, In x body -> is_header x = false) /\
    is_header l = false /\ startswith (str "+") l = true /\
    loc = mkLocation (group 2 c) (n + count_advancing body) (tl l) true.



End ParserSpec.
Import ParserSpec.

Module ReviewSpec.

(** A line of feedback opens an issue in [_parse_ai_feedback]. *)
Definition ai_marker (line : text) : bool :=
  any_in ["**P0**"; "P0:"; "P0 "; "P0-"]%string (strip line)
  || any_in ["**P1**"; "P1:"; "P1 "; "P1-"]%string (strip line)
  || any_in ["**P2**"; "P2:"; "P2 "; "P2-"]%string (strip line).

(** A line of feedback opens an issue in [_parse_review_feedback]. *)
Definition review_marker (line : text) : bool :=
  marked "P0" (strip line) || marked "P1" (strip line)
  || marked "P2" (strip line).

(** [loc] is the first of [locs] that passes [test]. *)
Definition first_passing (test : DiffLocation -> bool)
  (locs : list DiffLocation) (loc : DiffLocation) : Prop :=
  exists pre post,
    locs = pre ++ loc :: post /\
    (forall l, In l pre -> test l = false) /\ test loc = true.

Definition none_passing (test : DiffLocation -> bool)
  (locs : list DiffLocation) : Prop :=
  forall l, In l locs -> test l = false.

Definition path_has (name : text) (l : DiffLocation) : bool :=
  contains name (file_path l).

Definition content_has (snippet : text) (l : DiffLocation) : bool :=
  contains (strip snippet) (content l).

Definition located (i : issue) (loc : DiffLocation) : comment :=
  mkComment (description i) (severity i) (file_path loc) (line_number loc)
            false.

Definition unresolved (i : issue) : comment :=
  mkComment (description i) (severity i) (str "Unknown") 0 false.

End ReviewSpec.
Import ReviewSpec.

(** Diffs used as examples. *)
Module Examples.

Definition example_diff : text := str "diff --git a/src/App.swift b/src/App.swift
index 1111111..2222222 100644
--- a/src/App.swift
+++ b/src/App.swift
@@ -10,4 +12,5 @@ func run()
 let a = 1
+let b = 2
-let c = 3
 let d = 4
+let e = 5".

Definition headers_only_diff : text := str "diff --git a/one.txt b/one.txt
@@ -1 +1,2 @@
 kept
+added
diff --git a/two.bin b/two.bin
index 3333333..4444444
+not counted
 nor this".

Definition hunk_of_example : text := str "@@ -1,3 +1,4 @@
 a
+b
 c
-old
 d".



Definition header_secret_diff : text := str "diff --git a/one b/one
@@ -1 +1 @@
+a
diff --git a/key='x b/y'
+b".

Definition foo_diff : text := str "diff --git a/Foo.swift b/Foo.swift
@@ -10,0 +10,1 @@
+let x = y!".

End Examples.
Import Examples.

(* ------------------------------------------------------------------ *)
(** ** Vocabulary for searching up to case *)

Module SearchSpec.
Import TextOps.

(** A character that only itself has the lower case of. *)
Definition caseless (c : ascii) : Prop :=
  forall x, Ascii.eqb (lower_char x) (lower_char c) = Ascii.eqb x c.

(** The rest of [s] after a prefix that is [w] up to case. *)
Fixpoint istrip (w s : text) : option text :=
  match w with
  | [] => Some s
  | c :: w' =>
      match s with
      | [] => None
      | x :: s' =>
          if Ascii.eqb (lower_char x) (lower_char c) then istrip w' s'
          else None
      end
  end.

End SearchSpec.

(* ------------------------------------------------------------------ *)
(** ** Vocabulary for the queries over the parsed locations *)

Module QuerySpec.

(** The distinct elements of a list, in the order of their first
    occurrence. *)
Fixpoint firsts (ks : list text) : list text :=
  match ks with
  | [] => []
  | k :: ks' => k :: filter (fun k' => negb (text_eqb k' k)) (firsts ks')
  end.

(** The locations of one file. *)
Definition of_file (k : text) (locs : list DiffLocation) : list DiffLocation :=
  filter (fun l => text_eqb (file_path l) k) locs.

(** The locations grouped by file, the files in the order in which the
    diff first mentions them. *)
Definition grouped (locs : list DiffLocation)
  : list (text * list DiffLocation) :=
  map (fun k => (k, of_file k locs)) (firsts (map file_path locs)).

(** The content holds a line comment or opens a documentation comment. *)
Definition has_comment (l : DiffLocation) : bool :=
  contains (str "//") (content l) || contains (str "/**") (content l).

End QuerySpec.

(* ------------------------------------------------------------------ *)
(** ** Vocabulary for the issues of a feedback *)

Module IssueSpec.

(** The severity of an issue is one of the three levels and its title is
    the title of that level. *)
Definition labelled (i : issue) : Prop :=
  (severity i = str "P0" /\ title i = str "Critical Issue") \/
  (severity i = str "P1" /\ title i = str "Important Issue") \/
  (severity i = str "P2" /\ title i = str "Minor Issue").

(** The part of a state of the splitters that becomes the result. *)
Definition pending (st : fstate) : list issue := finish st.

(** A text of one line. *)
Definition one_line (t : text) : Prop := count_nl t = 0.

(** An entry of a preview: a comment on an issue carries the given path
    and line and one of the three levels; the summary counts as many
    issues as the three levels together. *)
Definition entry_of (path : option text) (line : option Z)
  (e : Preview.entry) : Prop :=
  match e with
  | Preview.Inline f n _ s =>
      f = path /\ n = line /\ In s [str "P0"; str "P1"; str "P2"]
  | Preview.Summary total p0 p1 p2 => total = p0 + p1 + p2
  end.

(** The numbers of an answer add up: the comments are the issues of the
    three levels and one summary. *)
Definition adds_up (a : Preview.answer) : Prop :=
  let '(p0, p1, p2) := Preview.severity_breakdown a in
  Preview.total_comments a = p0 + p1 + p2 + 1 /\
  Preview.total_comments a = List.length (Preview.comments a).

End IssueSpec.

(* ------------------------------------------------------------------ *)
(** ** Vocabulary for the matching of pull requests *)

Module MatchingSpec.
Import TextOps.

(** The identifier occurs in the title, or is the id, up to case. *)
Definition names (identifier : text) (pr : Matching.PullRequest) : bool :=
  contains (lower identifier) (lower (Matching.title pr))
  || text_eqb (lower identifier) (lower (Matching.id pr)).

End MatchingSpec.

(* ------------------------------------------------------------------ *)
(** ** Vocabulary for the detection of the platform *)

Module PlatformSpec.
Import Platform.

(** The service without the file patterns that hold a capital letter:
    [AndroidManifest.xml], [Info.plist], [Podfile], [Package.swift]. *)
Definition lowercase_service : PlatformDetectionService :=
  mkService
    (android_repo_patterns new)
    [".kt"; ".kts"; ".java"; "build.gradle";
     "activity"; "fragment"; "viewmodel"; "compose"; "jetpack"]%string
    (ios_repo_patterns new)
    [".swift"; ".m"; ".h";
     "swiftui"; "uikit"; "viewmodel"; "viewcontroller"]%string
    (backend_repo_patterns new)
    (backend_file_patterns new).

(** A pattern without capital letters. *)
Definition plain (pattern : string) : bool :=
  forallb (fun a => negb (is_upper a)) (str pattern).

End PlatformSpec.

(* ------------------------------------------------------------------ *)
(** ** Vocabulary for the settings *)

Module ConfigSpec.

(** [sep.join(names)] for a separator of one character. *)
Fixpoint join_on (sep : ascii) (names : list text) : text :=
  match names with
  | [] => []
  | [name] => name
  | name :: rest => name ++ sep :: join_on sep rest
  end.

(** A name that is not empty, has no comma and neither starts nor ends
    with white space. *)
Definition clean (name : text) : Prop :=
  name <> [] /\ ~ In ","%char name /\ strip name = name.

(** The repositories that [load_settings] returns. *)
Definition configured (env : Config.environ) : list text :=
  Config.repositories (Config.bitbucket (snd (Config.load_settings env))).

End ConfigSpec.

(* ------------------------------------------------------------------ *)
(** ** Vocabulary for the origin of a location *)

Module LocationSpec.

(** The location is an addition to a named file and its content is one of
    the given lines, which starts with a plus sign, without that sign. *)
Definition from_added_line (lines : list text) (loc : DiffLocation) : Prop :=
  is_addition loc = true /\
  file_path loc <> [] /\
  In ("+"%char :: content loc) lines.

End LocationSpec.

(* ------------------------------------------------------------------ *)
(** ** Vocabulary for the posting of comments *)

Module PostingSpec.
Import Posting.

(** A comment that is neither of severity P2 nor a summary. *)
Definition postable (comment : Comment) : bool :=
  match severity comment with
  | P0 | P1 => negb (is_summary comment)
  | P2 | SUMMARY => false
  end.

(** The call that posts a comment. *)
Definition call_of (comment : Comment) : call :=
  mkCall (formatted_comment comment) (line_number comment)
         (file_path comment).

End PostingSpec.

(* ------------------------------------------------------------------ *)
(** ** Facts about the matcher *)

Unset Implicit Arguments.

Module RegexFacts.

Lemma is_suffix_refl : forall s, is_suffix s s.
Proof. intro s; exists []; reflexivity. Qed.

Lemma is_suffix_trans : forall s1 s2 s3,
  is_suffix s1 s2 -> is_suffix s2 s3 -> is_suffix s1 s3.
Proof.
  intros s1 s2 s3 [w1 H1] [w2 H2]. exists (w2 ++ w1).
  subst. now rewrite app_assoc.
Qed.

Lemma is_suffix_tl : forall a s, is_suffix s (a :: s).
Proof. intros a s; exists [a]; reflexivity. Qed.

Lemma strip_prefix_app : forall p s s',
  strip_prefix p s = Some s' -> s = p ++ s'.
Proof.
  induction p as [|a p IH]; intros s s' H; simpl in *.
  - now inversion H.
  - destruct s as [|b s]; [discriminate|].
    destruct (Ascii.eqb a b) eqn:E; [|discriminate].
    apply Ascii.eqb_eq in E. subst b. f_equal. now apply IH.
Qed.

Lemma strip_prefix_here : forall p s, strip_prefix p (p ++ s) = Some s.
Proof.
  induction p as [|a p IH]; intro s; simpl; [reflexivity|].
  now rewrite Ascii.eqb_refl.
Qed.

Lemma firstn_consumed : forall (w s : text),
  firstn (List.length (w ++ s) - List.length s) (w ++ s) = w.
Proof.
  intros w s. rewrite length_app.
  replace (List.length w + List.length s - List.length s) with (List.length w + 0) by lia.
  rewrite firstn_app_2. simpl. now rewrite app_nil_r.
Qed.

Section Sound.

Variable R : Type.
Variable n0 : nat.

Definition sound_step (P : caps -> text -> caps -> Prop)
  (step : cont R -> cont R) : Prop :=
  forall k c s x, step k c s = Some x ->
    exists w s' c', s = w ++ s' /\ P c w c' /\ k c' s' = Some x.

Lemma greedy_sound : forall P step, sound_step P step ->
  forall fuel k c s x, greedy step k fuel c s = Some x ->
    exists w s' c', s = w ++ s' /\ iter P c w c' /\ k c' s' = Some x.
Proof.
  intros P step Hs. induction fuel as [|f IH]; intros k c s x H; simpl in H.
  - exists [], s, c. repeat split; auto. constructor.
  - unfold orelse in H.
    destruct (step _ c s) as [y|] eqn:E.
    + inversion H; subst y; clear H.
      apply Hs in E. destruct E as (w1 & s1 & c1 & -> & HP & Hk).
      destruct (List.length s1 <? List.length (w1 ++ s1)); [|discriminate].
      apply IH in Hk. destruct Hk as (w2 & s2 & c2 & -> & Hit & Hk).
      exists (w1 ++ w2), s2, c2. rewrite app_assoc. repeat split; auto.
      econstructor; eauto.
    + exists [], s, c. repeat split; auto. constructor.
Qed.

Lemma lazy_sound : forall P step, sound_step P step ->
  forall fuel k c s x, lazy step k fuel c s = Some x ->
    exists w s' c', s = w ++ s' /\ iter P c w c' /\ k c' s' = Some x.
Proof.
  intros P step Hs. induction fuel as [|f IH]; intros k c s x H; simpl in H.
  - exists [], s, c. repeat split; auto. constructor.
  - unfold orelse in H.
    destruct (k c s) as [y|] eqn:E0.
    + exists [], s, c. repeat split; auto; [constructor|congruence].
    + apply Hs in H. destruct H as (w1 & s1 & c1 & -> & HP & Hk).
      destruct (List.length s1 <? List.length (w1 ++ s1)); [|discriminate].
      apply IH in Hk. destruct Hk as (w2 & s2 & c2 & -> & Hit & Hk).
      exists (w1 ++ w2), s2, c2. rewrite app_assoc. repeat split; auto.
      econstructor; eauto.
Qed.

Lemma m_sound : forall r, sound_step (den r) (m n0 r).
Proof.
  induction r as [|t|p|r1 IH1 r2 IH2|r1 IH1 r2 IH2|r1 IH1|r1 IH1|n r1 IH1| |];
    intros k c s x H; simpl in H.
  - exists [], s, c. simpl. auto.
  - destruct (strip_prefix t s) as [s'|] eqn:E; [|discriminate].
    apply strip_prefix_app in E. exists t, s', c. simpl. auto.
  - destruct s as [|a s]; [discriminate|].
    destruct (p a) eqn:E; [|discriminate].
    exists [a], s, c. simpl. repeat split; auto. exists a. auto.
  - apply IH1 in H. destruct H as (w1 & s1 & c1 & -> & H1 & H).
    apply IH2 in H. destruct H as (w2 & s2 & c2 & -> & H2 & H).
    exists (w1 ++ w2), s2, c2. rewrite app_assoc. repeat split; auto.
    simpl. exists w1, w2, c1. auto.
  - unfold orelse in H. destruct (m n0 r1 k c s) as [y|] eqn:E.
    + inversion H; subst y. apply IH1 in E.
      destruct E as (w & s' & c' & -> & H1 & Hk).
      exists w, s', c'. simpl. auto.
    + apply IH2 in H. destruct H as (w & s' & c' & -> & H1 & Hk).
      exists w, s', c'. simpl. auto.
  - eapply greedy_sound in H; eauto.
  - eapply lazy_sound in H; eauto.
  - apply IH1 in H. destruct H as (w & s' & c' & -> & H1 & Hk).
    rewrite firstn_consumed in Hk.
    exists w, s', ((n, w) :: c'). simpl. repeat split; auto. exists c'. auto.
  - destruct (List.length s =? n0); [|discriminate].
    exists [], s, c. simpl. auto.
  - exists [], s, c. simpl. repeat split; auto.
    destruct s as [|a [|b s]]; auto; [|discriminate].
    destruct (Ascii.eqb a nl); [auto|discriminate].
Qed.

(** The matcher consults its continuation on suffixes of the subject only. *)
Definition ext_step (step : cont R -> cont R) : Prop :=
  forall k k' c s,
    (forall c' s', is_suffix s' s -> k c' s' = k' c' s') ->
    step k c s = step k' c s.

Lemma greedy_ext : forall step, ext_step step ->
  forall fuel, ext_step (fun k => greedy step k fuel).
Proof.
  intros step Hs. induction fuel as [|f IH]; intros k k' c s Hk; simpl.
  - apply Hk, is_suffix_refl.
  - rewrite (Hk c s (is_suffix_refl s)). f_equal.
    apply Hs. intros c' s' Hsuf.
    destruct (List.length s' <? List.length s); [|reflexivity].
    apply IH. intros c2 s2 H2. apply Hk. eapply is_suffix_trans; eauto.
Qed.

Lemma lazy_ext : forall step, ext_step step ->
  forall fuel, ext_step (fun k => lazy step k fuel).
Proof.
  intros step Hs. induction fuel as [|f IH]; intros k k' c s Hk; simpl.
  - apply Hk, is_suffix_refl.
  - rewrite (Hk c s (is_suffix_refl s)). f_equal.
    apply Hs. intros c' s' Hsuf.
    destruct (List.length s' <? List.length s); [|reflexivity].
    apply IH. intros c2 s2 H2. apply Hk. eapply is_suffix_trans; eauto.
Qed.

Lemma m_ext : forall r, ext_step (m n0 r).
Proof.
  induction r as [|t|p|r1 IH1 r2 IH2|r1 IH1 r2 IH2|r1 IH1|r1 IH1|n r1 IH1| |];
    intros k k' c s Hk; simpl.
  - apply Hk, is_suffix_refl.
  - destruct (strip_prefix t s) as [s'|] eqn:E; [|reflexivity].
    apply Hk. exists t. now apply strip_prefix_app.
  - destruct s as [|a s]; [reflexivity|].
    destruct (p a); [|reflexivity]. apply Hk, is_suffix_tl.
  - apply IH1. intros c1 s1 H1. apply IH2. intros c2 s2 H2.
    apply Hk. eapply is_suffix_trans; eauto.
  - rewrite (IH1 k k' c s Hk), (IH2 k k' c s Hk). reflexivity.
  - apply (greedy_ext _ IH1). exact Hk.
  - apply (lazy_ext _ IH1). exact Hk.
  - apply IH1. intros c1 s1 H1. now apply Hk.
  - destruct (List.length s =? n0); [|reflexivity]. apply Hk, is_suffix_refl.
  - destruct s as [|a [|b s]]; try reflexivity.
    + apply Hk, is_suffix_refl.
    + destruct (Ascii.eqb a nl); [|reflexivity]. apply Hk, is_suffix_refl.
Qed.

End Sound.

Lemma exec_sound : forall n0 r s c s',
  exec n0 r s = Some (c, s') -> exists w, s = w ++ s' /\ den r [] w c.
Proof.
  intros n0 r s c s' H. unfold exec in H. apply m_sound in H.
  destruct H as (w & s1 & c1 & -> & Hd & Hk). inversion Hk; subst.
  exists w. auto.
Qed.

End RegexFacts.
Import RegexFacts.
Module SanitizerFacts.

Lemma count_nl_app : forall s t, count_nl (s ++ t) = count_nl s + count_nl t.
Proof.
  intros s t. unfold count_nl. now rewrite filter_app, length_app.
Qed.

Lemma split_lines_nonempty : forall s, split_lines s <> [].
Proof.
  destruct s as [|a s]; simpl; [discriminate|].
  destruct (Ascii.eqb a nl); [discriminate|].
  destruct (split_lines s); discriminate.
Qed.

Lemma count_nl_cons : forall a s,
  count_nl (a :: s) = (if Ascii.eqb a nl then 1 else 0) + count_nl s.
Proof.
  intros a s. unfold count_nl. cbn [filter].
  rewrite (Ascii.eqb_sym nl a). now destruct (Ascii.eqb a nl).
Qed.


Section Scan.

Variable n0 : nat.
Variable r : regex.



End Scan.










Lemma split_lines_app : forall a b,
  split_lines (a ++ b) = glue (split_lines a) (split_lines b).
Proof.
  induction a as [|x a IH]; intro b.
  - cbn [app split_lines]. unfold glue. cbn [removelast last app].
    destruct (split_lines b) eqn:E; [now apply split_lines_nonempty in E|].
    reflexivity.
  - cbn [app split_lines]. rewrite IH. unfold glue.
    destruct (Ascii.eqb x nl).
    + destruct (split_lines a) as [|l ls] eqn:E;
        [now apply split_lines_nonempty in E|].
      reflexivity.
    + destruct (split_lines a) as [|l [|l' ls]] eqn:E;
        [now apply split_lines_nonempty in E| |]; reflexivity.
Qed.

Lemma split_lines_single : forall s, count_nl s = 0 -> split_lines s = [s].
Proof.
  induction s as [|a s IH]; intro H; [reflexivity|].
  rewrite count_nl_cons in H. cbn [split_lines].
  destruct (Ascii.eqb a nl); [discriminate|]. now rewrite IH.
Qed.


End SanitizerFacts.
Import SanitizerFacts.
Module SanitizerTheorems.



















(** C10.  [detect_credentials] runs every rule on the text it is given:
    the result for a list of rules is the concatenation of the results of
    its parts on the same text, whereas [sanitize_diff] feeds the output of
    the earlier rules to the later ones.  On [export API_KEY='abc'] the
    export rule for KEY and the variable rule for KEY both report the
    value, which therefore stands at two indices of the result. *)
Theorem detect_credentials_reports_twice :
  (forall ps1 ps2 t,
     detect_with (ps1 ++ ps2) t = detect_with ps1 t ++ detect_with ps2 t) /\
  (forall ps1 ps2 repl t,
     sanitize_with (ps1 ++ ps2) repl (Some t)
     = sanitize_with ps2 repl (Some (sanitize_with ps1 repl (Some t)))) /\
  (let t := str "export API_KEY='abc'" in
   nth_error Settings.patterns 10 = Some (Settings.export_rule "KEY") /\
   nth_error Settings.patterns 15 = Some (Settings.variable_rule "KEY") /\
   found t (Settings.export_rule "KEY") = [str "abc"] /\
   found t (Settings.variable_rule "KEY") = [str "abc"] /\
   found (sanitize_with [Settings.export_rule "KEY"] Settings.replacement
                        (Some t))
         (Settings.variable_rule "KEY") = [str "[REDACTED]"] /\
   detect_credentials t = [str "abc"; str "abc"] /\
   nth_error (detect_credentials t) 0 = Some (str "abc") /\
   nth_error (detect_credentials t) 1 = Some (str "abc")).
Proof.
  split; [|split].
  - intros. unfold detect_with. apply flat_map_app.
  - intros. unfold sanitize_with. apply fold_left_app.
  - vm_compute. repeat split; reflexivity.
Qed.

End SanitizerTheorems.
Import SanitizerTheorems.
Module ParserFacts.

Ltac break_den :=
  repeat match goal with
         | H : exists _, _ |- _ => destruct H
         | H : _ /\ _ |- _ => destruct H
         | H : _ \/ _ |- _ => destruct H
         end.

Lemma re_match_sound : forall r s c,
  re_match r s = Some c -> exists w s', s = w ++ s' /\ den r [] w c.
Proof.
  intros r s c H. unfold re_match in H.
  destruct (exec (List.length s) r s) as [[c1 s1]|] eqn:E; [|discriminate].
  simpl in H. inversion H; subst. apply exec_sound in E.
  destruct E as (w & Hw & Hd). eauto.
Qed.

Lemma header_path_truthy : forall line c,
  re_match file_header_pattern line = Some c -> truthy (group 2 c) = true.
Proof.
  intros line c H. apply re_match_sound in H.
  destruct H as (w & s' & _ & H).
  unfold file_header_pattern, redacted_opt, Opt, LazyPlus, Dot in H.
  cbn [seqs den] in H. break_den; subst; reflexivity.
Qed.

Lemma original_header_path_truthy : forall line c,
  re_match original_file_header_pattern line = Some c ->
  truthy (group 2 c) = true.
Proof.
  intros line c H. apply re_match_sound in H.
  destruct H as (w & s' & _ & H).
  unfold original_file_header_pattern, LazyPlus, Dot in H.
  cbn [seqs den] in H. break_den; subst; reflexivity.
Qed.

Lemma matches_first_char : forall (a : ascii) line,
  matches (Seq Bol (Chr a)) line = startswith [a] line.
Proof.
  intros a line. unfold matches, re_match, exec, startswith, Chr.
  cbn [m]. rewrite Nat.eqb_refl.
  destruct line as [|b line]; [reflexivity|]. cbn [strip_prefix].
  destruct (Ascii.eqb a b); reflexivity.
Qed.

Lemma matches_addition : forall line,
  matches addition_pattern line = startswith (str "+") line.
Proof. intro. apply matches_first_char. Qed.

Lemma matches_removal : forall line,
  matches removal_pattern line = startswith (str "-") line.
Proof. intro. apply matches_first_char. Qed.

Lemma split_lines_cons : forall h rest,
  count_nl h = 0 -> split_lines (h ++ nl :: rest) = h :: split_lines rest.
Proof.
  induction h as [|a h IH]; intros rest H.
  - cbn [app split_lines]. now rewrite Ascii.eqb_refl.
  - rewrite count_nl_cons in H. cbn [app split_lines].
    destruct (Ascii.eqb a nl); [discriminate|].
    rewrite IH by (simpl in H; exact H). reflexivity.
Qed.


Lemma step_file : forall st line, is_file_header line = true ->
  exists c, re_match file_header_pattern line = Some c /\
    truthy (group 2 c) = true /\
    parse_diff_step st line
    = mkState (Some (group 2 c)) None 0 (locations st).
Proof.
  intros st line H. unfold is_file_header, matches in H.
  unfold parse_diff_step.
  destruct (re_match file_header_pattern line) as [c|] eqn:E; [|discriminate].
  exists c. repeat split. eapply header_path_truthy; eauto.
Qed.

Lemma hunk_start_not_file : forall line n,
  hunk_start line = Some n -> is_file_header line = false.
Proof.
  intros line n H. unfold hunk_start in H.
  destruct (is_file_header line); [discriminate|reflexivity].
Qed.

Lemma step_hunk : forall st line n, hunk_start line = Some n ->
  parse_diff_step st line
  = mkState (current_file st) (Some n) 0 (locations st).
Proof.
  intros st line n H. pose proof (hunk_start_not_file _ _ H) as Hf.
  unfold hunk_start in H. rewrite Hf in H.
  unfold is_file_header, matches in Hf. unfold parse_diff_step.
  destruct (re_match file_header_pattern line); [discriminate|].
  destruct (re_match hunk_header_pattern line) as [c|]; [|discriminate].
  simpl in H. inversion H. reflexivity.
Qed.

Lemma is_header_false : forall line, is_header line = false ->
  is_file_header line = false /\ hunk_start line = None.
Proof.
  intros line H. unfold is_header in H. apply orb_false_elim in H.
  destruct H as [H1 H2]. split; [exact H1|].
  destruct (hunk_start line); [discriminate|reflexivity].
Qed.

Lemma step_plain : forall st line, is_header line = false ->
  parse_diff_step st line = plain_step st line.
Proof.
  intros st line H. apply is_header_false in H. destruct H as [Hf Hh].
  unfold hunk_start in Hh. rewrite Hf in Hh.
  unfold is_file_header, matches in Hf.
  unfold parse_diff_step, plain_step.
  destruct (re_match file_header_pattern line); [discriminate|].
  destruct (re_match hunk_header_pattern line); [discriminate|].
  rewrite matches_addition, matches_removal. reflexivity.
Qed.

Lemma line_cases : forall line,
  is_file_header line = true \/
  (exists n, hunk_start line = Some n) \/
  is_header line = false.
Proof.
  intro line. unfold is_header.
  destruct (is_file_header line); [now left|right].
  destruct (hunk_start line) as [n|]; [left; eauto|now right].
Qed.

End ParserFacts.
Import ParserFacts.
Module ParserInvariant.

Lemma count_advancing_snoc : forall body l,
  count_advancing (body ++ [l])
  = (count_advancing body + (if advancing l then 1 else 0))%Z.
Proof.
  intros body l. unfold count_advancing.
  rewrite filter_app, length_app. cbn [filter].
  destruct (advancing l); cbn [List.length]; lia.
Qed.

Lemma run_snoc : forall xs x, run (xs ++ [x]) = parse_diff_step (run xs) x.
Proof. intros. unfold run. now rewrite fold_left_app. Qed.

Lemma startswith_excl : forall l,
  startswith (str "+") l = false -> startswith (str "-") l = true ->
  startswith (str " ") l = false.
Proof.
  intros [|a l] H1 H2; [discriminate|].
  unfold startswith in *. cbn [str list_ascii_of_string strip_prefix] in *.
  destruct (Ascii.eqb "-" a) eqn:E; [|discriminate].
  apply Ascii.eqb_eq in E. subst a. reflexivity.
Qed.

Lemma last_header_snoc : forall xs f x,
  last_header xs f -> is_file_header x = false -> last_header (xs ++ [x]) f.
Proof.
  intros xs f x (p1 & fh & c & p2 & -> & Hc & Hf & Hp2) Hx.
  exists p1, fh, c, (p2 ++ [x]). rewrite <- app_assoc. repeat split; auto.
  intros l Hl. apply in_app_or in Hl. destruct Hl as [Hl|[<-|[]]]; auto.
Qed.

Lemma forall_snoc : forall (P : text -> Prop) body x,
  (forall l, In l body -> P l) -> P x -> forall l, In l (body ++ [x]) -> P l.
Proof.
  intros P body x Hb Hx l Hl. apply in_app_or in Hl.
  destruct Hl as [Hl|[<-|[]]]; auto.
Qed.

Lemma inv_step : forall xs st x,
  inv xs st -> inv (xs ++ [x]) (parse_diff_step st x).
Proof.
  intros xs st x [Hfile Hcur].
  destruct (line_cases x) as [Hx|[[n Hx]|Hx]].
  - destruct (step_file st x Hx) as (c & Hc & Hp & ->). split; cbn.
    + intros f Hf. inversion Hf; subst f. split; [exact Hp|].
      exists xs, x, c, []. repeat split; auto. intros l [].
    + discriminate.
  - rewrite (step_hunk st x n Hx).
    pose proof (hunk_start_not_file _ _ Hx) as Hnf. split; cbn.
    + intros f Hf. destruct (Hfile f Hf) as (Ht & Hl).
      split; [exact Ht|]. now apply last_header_snoc.
    + intros n' Hn. inversion Hn; subst n'.
      exists xs, x, []. repeat split; auto; try (intros l []).
      now apply Hfile.
  - rewrite (step_plain st x Hx).
    destruct (is_header_false x Hx) as [Hnf _].
    assert (Hkeep : forall st', current_file st' = current_file st ->
              forall f, current_file st' = Some f ->
              truthy f = true /\ last_header (xs ++ [x]) f).
    { intros st' E f Hf. rewrite E in Hf.
      destruct (Hfile f Hf) as (Ht & Hl). split; [exact Ht|].
      now apply last_header_snoc. }
    unfold plain_step.
    destruct (current_file st) as [f|] eqn:Ef.
    2:{ split; [apply Hkeep; congruence|].
        intros n Hn. destruct (Hcur n Hn) as (pre & h & body & -> & Hh & Hb & _).
        exists pre, h, (body ++ [x]). rewrite <- app_assoc.
        repeat split; auto; try congruence. now apply forall_snoc. }
    destruct (current_line_number st) as [n|] eqn:En.
    2:{ split; [apply Hkeep; congruence|]. intros n Hn. congruence. }
    destruct (Hfile f eq_refl) as (Ht & _). rewrite Ht. cbn [negb].
    destruct (Hcur n eq_refl) as (pre & h & body & E & Hh & Hb & Hc).
    destruct (Hc f eq_refl) as [Hc' Hpre].
    assert (Hgoal : forall st', current_file st' = Some f ->
              current_line_number st' = Some n ->
              lines_since_hunk st'
              = (lines_since_hunk st + (if advancing x then 1 else 0))%Z ->
              inv (xs ++ [x]) st').
    { intros st' E1 E2 E3. split.
      - apply Hkeep. congruence.
      - intros n' Hn'. rewrite E2 in Hn'. inversion Hn'; subst n'.
        exists pre, h, (body ++ [x]). rewrite E, <- app_assoc.
        repeat split; auto.
        + now apply forall_snoc.
        + rewrite E3, count_advancing_snoc, Hc'. reflexivity.
        + rewrite E1 in H. inversion H; subst. exact Hpre. }
    unfold advancing in Hgoal.
    destruct (startswith (str "+") x) eqn:Ea.
    + apply Hgoal; cbn; auto.
    + destruct (startswith (str "-") x) eqn:Er.
      * apply Hgoal; auto. rewrite (startswith_excl x Ea Er). cbn. lia.
      * destruct (startswith (str " ") x) eqn:Ec; apply Hgoal; cbn; auto. lia.
Qed.

Lemma inv_run : forall xs, inv xs (run xs).
Proof.
  induction xs as [|x xs IH] using rev_ind.
  - split; cbn; discriminate.
  - rewrite run_snoc. now apply inv_step.
Qed.

Lemma emitted_at_snoc : forall xs x loc,
  emitted_at xs loc -> emitted_at (xs ++ [x]) loc.
Proof.
  intros xs x loc (p1 & fh & c & p2 & h & n & body & l & rest & -> & H).
  exists p1, fh, c, p2, h, n, body, l, (rest ++ [x]). split; [|exact H].
  rewrite <- !app_assoc. cbn [app]. rewrite <- !app_assoc. reflexivity.
Qed.

(** What a turn of the loop adds to the locations. *)
Lemma step_emits : forall xs st x, inv xs st ->
  forall loc, In loc (locations (parse_diff_step st x)) ->
    In loc (locations st) \/ emitted_at (xs ++ [x]) loc.
Proof.
  intros xs st x [Hfile Hcur] loc Hin.
  destruct (line_cases x) as [Hx|[[n Hx]|Hx]].
  - destruct (step_file st x Hx) as (c & Hc & Hp & E). rewrite E in Hin.
    now left.
  - rewrite (step_hunk st x n Hx) in Hin. now left.
  - rewrite (step_plain st x Hx) in Hin. unfold plain_step in Hin.
    destruct (current_file st) as [f|] eqn:Ef; [|now left].
    destruct (current_line_number st) as [n|] eqn:En; [|now left].
    destruct (negb (truthy f)); [now left|].
    destruct (startswith (str "+") x) eqn:Ea.
    + cbn [locations] in Hin. apply in_app_or in Hin.
      destruct Hin as [Hin|[<-|[]]]; [now left|right].
      destruct (Hcur n eq_refl) as (pre & h & body & E & Hh & Hb & Hc).
      destruct (Hc f eq_refl) as [Hc' (p1 & fh & c & p2 & -> & Hm & -> & Hp2)].
      exists p1, fh, c, p2, h, n, body, x, [].
      rewrite E, Hc'. split; [now rewrite <- app_assoc|].
      repeat split; auto.
    + destruct (startswith (str "-") x); [now left|].
      destruct (startswith (str " ") x); now left.
Qed.

Lemma run_emitted : forall xs loc,
  In loc (locations (run xs)) -> emitted_at xs loc.
Proof.
  induction xs as [|x xs IH] using rev_ind; intros loc Hin.
  - destruct Hin.
  - rewrite run_snoc in Hin.
    destruct (step_emits xs (run xs) x (inv_run xs) loc Hin) as [H|H]; auto.
    apply emitted_at_snoc. now apply IH.
Qed.

Lemma parse_run : forall d, parse d = locations (run (split_lines d)).
Proof. intros [|a d]; reflexivity. Qed.

End ParserInvariant.
Import ParserInvariant.
Module ParserTheorems.

(** C3.  Every location that [parse_diff] emits comes from an addition
    line [l] of the diff; the most recent hunk header before [l] is [h],
    with new-file start [n]; no header lies between [h] and [l]; and the
    line number of the location is [n] plus the number of context and
    addition lines between [h] and [l]. *)
Theorem line_number_is_hunk_start_plus_offset :
  forall (d : text) (loc : DiffLocation),
    In loc (parse d) ->
    exists before h n body l rest,
      split_lines d = before ++ h :: body ++ l :: rest /\
      hunk_start h = Some n /\
      (forall x, In x body -> is_header x = false) /\
      startswith (str "+") l = true /\
      content loc = tl l /\
      line_number loc = (n + count_advancing body)%Z.
Proof.
  intros d loc Hin. rewrite parse_run in Hin. apply run_emitted in Hin.
  destruct Hin as (p1 & fh & c & p2 & h & n & body & l & rest & E & _ & _ &
                   Hh & Hb & _ & Hl & ->).
  exists (p1 ++ fh :: p2), h, n, body, l, rest. repeat split; auto.
Qed.

Lemma line_number_is_hunk_start_plus_offset_witness :
  exists before h n body l rest,
    split_lines example_diff = before ++ h :: body ++ l :: rest /\
    hunk_start h = Some n /\
    (forall x, In x body -> is_header x = false) /\
    startswith (str "+") l = true /\
    content (mkLocation (str "src/App.swift") 15 (str "let e = 5") true)
    = tl l /\
    line_number (mkLocation (str "src/App.swift") 15 (str "let e = 5") true)
    = (n + count_advancing body)%Z.
Proof.
  apply (line_number_is_hunk_start_plus_offset example_diff).
  vm_compute. right. left. reflexivity.
Defined.

Lemma headerless_tail : forall pre fh body,
  is_file_header fh = true ->
  (forall x, In x body -> hunk_start x = None) ->
  current_line_number (run (pre ++ fh :: body)) = None /\
  locations (run (pre ++ fh :: body)) = locations (run pre).
Proof.
  intros pre fh body Hfh. induction body as [|x body IH] using rev_ind;
    intro Hb.
  - rewrite run_snoc.
    destruct (step_file (run pre) fh Hfh) as (c & _ & _ & ->). auto.
  - assert (Hb' : forall y, In y body -> hunk_start y = None)
      by (intros y Hy; apply Hb, in_or_app; now left).
    destruct (IH Hb') as [Hc Hl].
    change (pre ++ fh :: body ++ [x]) with (pre ++ (fh :: body) ++ [x]).
    rewrite app_assoc, run_snoc.
    destruct (is_file_header x) eqn:Hx.
    + destruct (step_file (run (pre ++ fh :: body)) x Hx) as (c & _ & _ & ->).
      auto.
    + assert (Hh : is_header x = false).
      { unfold is_header. rewrite Hx, (Hb x); [reflexivity|].
        apply in_or_app. right. now left. }
      rewrite (step_plain _ x Hh). unfold plain_step. rewrite Hc.
      destruct (current_file (run (pre ++ fh :: body))); auto.
Qed.

Lemma no_file_no_cursor : forall xs,
  (forall x, In x xs -> is_file_header x = false) ->
  current_file (run xs) = None.
Proof.
  induction xs as [|x xs IH] using rev_ind; intro H; [reflexivity|].
  rewrite run_snoc.
  assert (Hx : is_file_header x = false)
    by (apply H, in_or_app; right; now left).
  assert (IH' : current_file (run xs) = None)
    by (apply IH; intros y Hy; apply H, in_or_app; now left).
  destruct (line_cases x) as [Hf|[[n Hh]|Hp]]; [congruence| |].
  - now rewrite (step_hunk _ x n Hh).
  - rewrite (step_plain _ x Hp). unfold plain_step. now rewrite IH'.
Qed.

Lemma awaiting_unset : forall xs, awaiting xs ->
  current_file (run xs) = None \/ current_line_number (run xs) = None.
Proof.
  intros xs [H|(pre & fh & body & -> & Hfh & Hb)].
  - left. now apply no_file_no_cursor.
  - right. now apply headerless_tail.
Qed.

Lemma unset_step : forall st line,
  current_file st = None \/ current_line_number st = None ->
  locations (parse_diff_step st line) = locations st.
Proof.
  intros st line H. destruct (line_cases line) as [Hf|[[n Hh]|Hp]].
  - now destruct (step_file st line Hf) as (c & _ & _ & ->).
  - now rewrite (step_hunk st line n Hh).
  - rewrite (step_plain st line Hp). unfold plain_step.
    destruct H as [-> | H]; [reflexivity|]. rewrite H.
    now destruct (current_file st).
Qed.

Lemma step_appends : forall st line,
  exists added,
    locations (parse_diff_step st line) = locations st ++ added.
Proof.
  intros st line. destruct (line_cases line) as [Hf|[[n Hh]|Hp]].
  - destruct (step_file st line Hf) as (c & _ & _ & ->). exists [].
    now rewrite app_nil_r.
  - rewrite (step_hunk st line n Hh). exists []. now rewrite app_nil_r.
  - rewrite (step_plain st line Hp). unfold plain_step.
    destruct (current_file st) as [f|];
      [|exists []; now rewrite app_nil_r].
    destruct (current_line_number st) as [k|];
      [|exists []; now rewrite app_nil_r].
    destruct (negb (truthy f)); [exists []; now rewrite app_nil_r|].
    destruct (startswith (str "+") line); [eexists; reflexivity|].
    destruct (startswith (str "-") line);
      [exists []; now rewrite app_nil_r|].
    destruct (startswith (str " ") line); exists []; now rewrite app_nil_r.
Qed.

Lemma split_lines_snoc : forall d l,
  count_nl l = 0 -> split_lines (d ++ nl :: l) = split_lines d ++ [l].
Proof.
  intros d l H. rewrite split_lines_app.
  cbn [split_lines]. rewrite Ascii.eqb_refl, (split_lines_single l H).
  unfold glue. cbn [hd tl]. rewrite app_nil_r.
  destruct (split_lines d) as [|x xs] eqn:E;
    [now apply split_lines_nonempty in E|].
  rewrite (app_removelast_last [] (l := x :: xs)) at 3 by discriminate.
  now rewrite <- app_assoc.
Qed.

Lemma parse_next_line : forall d l,
  count_nl l = 0 ->
  parse (d ++ nl :: l)
  = locations (parse_diff_step (run (split_lines d)) l).
Proof.
  intros d l H. now rewrite parse_run, (split_lines_snoc d l H), run_snoc.
Qed.


(** C8.  For every diff: the locations are emitted in reading order,
    so that a further line adds its locations at the end; a line read
    while the loop still waits for a file header, or for a hunk header
    after a file header, adds none; every location that is emitted comes
    from an addition line that follows a hunk header, which follows a
    file header; a file header unsets the line cursor and emits nothing;
    and from a file header on, as long as no hunk header follows, no
    location is emitted. *)
Theorem no_location_before_both_headers :
  forall d : text,
    (forall l, count_nl l = 0 ->
       exists added,
         parse (d ++ nl :: l) = parse d ++ added /\
         (awaiting (split_lines d) -> added = [])) /\
    (forall loc, In loc (parse d) -> emitted_at (split_lines d) loc) /\
    (forall st line, is_file_header line = true ->
       current_line_number (parse_diff_step st line) = None /\
       lines_since_hunk (parse_diff_step st line) = 0%Z /\
       locations (parse_diff_step st line) = locations st) /\
    (forall pre fh body,
       split_lines d = pre ++ fh :: body ->
       is_file_header fh = true ->
       (forall x, In x body -> hunk_start x = None) ->
       parse d = locations (run pre)).
Proof.
  intro d. split; [|split; [|split]].
  - intros l Hl. rewrite (parse_next_line d l Hl), parse_run.
    destruct (step_appends (run (split_lines d)) l) as [added E].
    exists added. split; [exact E|]. intro Hw.
    apply awaiting_unset in Hw.
    rewrite (unset_step _ l Hw) in E.
    rewrite <- (app_nil_r (locations (run (split_lines d)))) in E at 1.
    apply app_inv_head in E. now symmetry.
  - intros loc Hin. rewrite parse_run in Hin. now apply run_emitted.
  - intros st line H. destruct (step_file st line H) as (c & _ & _ & ->). auto.
  - intros pre fh body E Hfh Hb. rewrite parse_run, E.
    now apply headerless_tail.
Qed.

Lemma no_location_before_both_headers_witness :
  parse (str "+early" ++ nl :: str "+too early") = parse (str "+early") /\
  parse (headers_only_diff ++ nl :: str "+late") = parse headers_only_diff /\
  emitted_at (split_lines headers_only_diff)
             (mkLocation (str "one.txt") 2 (str "added") true) /\
  current_line_number
    (parse_diff_step (mkState None (Some 7%Z) 3 [])
       (str "diff --git a/two.bin b/two.bin")) = None /\
  parse headers_only_diff
  = locations (run (map str ["diff --git a/one.txt b/one.txt";
                             "@@ -1 +1,2 @@"; " kept"; "+added"]%string)).
Proof.
  destruct (no_location_before_both_headers (str "+early"))
    as (E1 & _).
  destruct (no_location_before_both_headers headers_only_diff)
    as (H1 & H2 & H3 & H4).
  assert (Htail : forall x,
            In x (map str ["index 3333333..4444444"; "+not counted";
                           " nor this"]%string) -> hunk_start x = None).
  { intros x Hx. cbn [map In] in Hx.
    destruct Hx as [<-|[<-|[<-|[]]]]; vm_compute; reflexivity. }
  split; [|split; [|split; [|split]]].
  - destruct (E1 (str "+too early") eq_refl) as (added & E & Hw).
    rewrite E, Hw, app_nil_r; [reflexivity|].
    left. intros x [<-|[]]. vm_compute. reflexivity.
  - destruct (H1 (str "+late") eq_refl) as (added & E & Hw).
    rewrite E, Hw, app_nil_r; [reflexivity|].
    right.
    exists (map str ["diff --git a/one.txt b/one.txt";
                     "@@ -1 +1,2 @@"; " kept"; "+added"]%string),
           (str "diff --git a/two.bin b/two.bin"),
           (map str ["index 3333333..4444444"; "+not counted";
                     " nor this"]%string).
    split; [vm_compute; reflexivity|]. split; [vm_compute; reflexivity|].
    exact Htail.
  - apply H2. vm_compute. left. reflexivity.
  - apply (H3 (mkState None (Some 7%Z) 3 [])
              (str "diff --git a/two.bin b/two.bin")).
    vm_compute. reflexivity.
  - apply (H4 (map str ["diff --git a/one.txt b/one.txt";
                        "@@ -1 +1,2 @@"; " kept"; "+added"]%string)
              (str "diff --git a/two.bin b/two.bin")
              (map str ["index 3333333..4444444"; "+not counted";
                        " nor this"]%string)).
    + vm_compute. reflexivity.
    + vm_compute. reflexivity.
    + exact Htail.
Defined.

(** C7.  For every line [h] that [parse_diff] reads as a file header with
    new-file path [X], the diff made of [h], the hunk header
    [@@ -1,3 +1,4 @@] and the lines [ a], [+b], [ c], [-old], [ d] parses
    to the single location of path [X], line 2, content [b]; the offset in
    the hunk is 1 after [ a], 2 after [+b], 3 after [ c], still 3 after
    [-old] and 4 after [ d], and only [+b] adds a location. *)
Theorem single_hunk_example :
  forall (h : text) (c : caps),
    re_match file_header_pattern h = Some c ->
    count_nl h = 0 ->
    let X := group 2 c in
    let b := mkLocation X 2 (str "b") true in
    let after ls := run (h :: map str ls) in
    parse (h ++ nl :: hunk_of_example) = [b] /\
    after ["@@ -1,3 +1,4 @@"]%string = mkState (Some X) (Some 1%Z) 0 [] /\
    after ["@@ -1,3 +1,4 @@"; " a"]%string
    = mkState (Some X) (Some 1%Z) 1 [] /\
    after ["@@ -1,3 +1,4 @@"; " a"; "+b"]%string
    = mkState (Some X) (Some 1%Z) 2 [b] /\
    after ["@@ -1,3 +1,4 @@"; " a"; "+b"; " c"]%string
    = mkState (Some X) (Some 1%Z) 3 [b] /\
    after ["@@ -1,3 +1,4 @@"; " a"; "+b"; " c"; "-old"]%string
    = mkState (Some X) (Some 1%Z) 3 [b] /\
    after ["@@ -1,3 +1,4 @@"; " a"; "+b"; " c"; "-old"; " d"]%string
    = mkState (Some X) (Some 1%Z) 4 [b].
Proof.
  intros h c Hm Hnl X b after.
  assert (Hstep : parse_diff_step initial h = mkState (Some X) None 0 []).
  { unfold parse_diff_step. rewrite Hm. reflexivity. }
  assert (Hrun : forall ls, after ls
                   = fold_left parse_diff_step (map str ls)
                       (mkState (Some X) None 0 [])).
  { intro ls. unfold after, run. cbn [fold_left]. now rewrite Hstep. }
  assert (Hparse : parse (h ++ nl :: hunk_of_example)
                   = locations (after ["@@ -1,3 +1,4 @@"; " a"; "+b"; " c";
                                       "-old"; " d"]%string)).
  { rewrite parse_run, split_lines_cons by exact Hnl. reflexivity. }
  rewrite Hparse, !Hrun. clear Hparse Hrun Hstep after.
  pose proof (header_path_truthy h c Hm) as Ht. subst b. fold X in Ht.
  destruct X as [|x X]; [discriminate|].
  vm_compute. repeat split; reflexivity.
Qed.

Lemma single_hunk_example_witness :
  parse (str "diff --git a/lib/util.py b/lib/util.py" ++ nl :: hunk_of_example)
  = [mkLocation (str "lib/util.py") 2 (str "b") true].
Proof.
  apply (single_hunk_example (str "diff --git a/lib/util.py b/lib/util.py")
           [(2, str "lib/util.py"); (1, str "lib/util.py")]).
  - vm_compute. reflexivity.
  - vm_compute. reflexivity.
Defined.

End ParserTheorems.
Import ParserTheorems.
Module EntryPoints.

Lemma contains_suffix : forall needle s s',
  contains needle s = false -> is_suffix s' s -> contains needle s' = false.
Proof.
  intros needle s s' H [w ->]. induction w as [|a w IH]; [exact H|].
  apply IH. cbn [app contains] in H. apply orb_false_elim in H. tauto.
Qed.

Lemma contains_startswith : forall needle s,
  contains needle s = false -> startswith needle s = false.
Proof.
  intros needle s H. destruct s; cbn [contains] in H;
    apply orb_false_elim in H; tauto.
Qed.

Lemma strip_prefix_cat : forall a b s,
  strip_prefix (a ++ b) s
  = match strip_prefix a s with
    | Some s1 => strip_prefix b s1
    | None => None
    end.
Proof.
  induction a as [|x a IH]; intros b s; cbn [app strip_prefix]; [reflexivity|].
  destruct s as [|y s]; [reflexivity|].
  destruct (Ascii.eqb x y); [apply IH|reflexivity].
Qed.

Section Tolerance.

Variable R : Type.
Variable n0 : nat.

(** Where the subject holds no redacted, the optional redacted reads nothing. *)
Lemma skip_redacted_opt : forall a b r (k : cont R) c s,
  contains redacted s = false ->
  m n0 (Seq (Str a) (Seq redacted_opt (Seq (Str b) r))) k c s
  = m n0 (Seq (Str (a ++ b)) r) k c s.
Proof.
  intros a b r k c s Hs. cbn [m redacted_opt Opt].
  rewrite strip_prefix_cat.
  destruct (strip_prefix a s) as [s1|] eqn:E; [|reflexivity].
  assert (H1 : startswith redacted s1 = false).
  { apply contains_startswith. eapply contains_suffix; eauto.
    exists a. now apply strip_prefix_app. }
  unfold startswith in H1. fold redacted.
  destruct (strip_prefix redacted s1); [discriminate|]. reflexivity.
Qed.

Lemma seq_tail_ext : forall r1 r2 r2' (k : cont R) c s,
  (forall c' s', is_suffix s' s ->
     m n0 r2 k c' s' = m n0 r2' k c' s') ->
  m n0 (Seq r1 r2) k c s = m n0 (Seq r1 r2') k c s.
Proof.
  intros r1 r2 r2' k c s H. cbn [m]. apply m_ext. exact H.
Qed.

Lemma header_patterns_agree : forall (k : cont R) c s,
  contains redacted s = false ->
  m n0 file_header_pattern k c s = m n0 original_file_header_pattern k c s.
Proof.
  intros k c s Hs.
  unfold file_header_pattern, original_file_header_pattern.
  cbn [seqs]. apply seq_tail_ext. intros c1 s1 H1.
  assert (Hs1 : contains redacted s1 = false) by (eapply contains_suffix; eauto).
  rewrite skip_redacted_opt by exact Hs1.
  change (str "diff --git a" ++ str "/") with (str "diff --git a/").
  apply seq_tail_ext. intros c2 s2 H2.
  apply seq_tail_ext. intros c3 s3 H3.
  assert (Hs3 : contains redacted s3 = false).
  { eapply contains_suffix; [exact Hs1|].
    eapply is_suffix_trans; eauto. }
  rewrite skip_redacted_opt by exact Hs3.
  reflexivity.
Qed.

End Tolerance.

Lemma header_match_agree : forall line,
  contains redacted line = false ->
  re_match file_header_pattern line
  = re_match original_file_header_pattern line.
Proof.
  intros line H. unfold re_match, exec.
  now rewrite header_patterns_agree.
Qed.

(** The two loop bodies are the same function of the header match. *)
Lemma steps_agree : forall st line,
  re_match file_header_pattern line
  = re_match original_file_header_pattern line ->
  parse_diff_step st line = parse_original_diff_step st line.
Proof.
  intros st line H. unfold parse_diff_step, parse_original_diff_step.
  rewrite H. reflexivity.
Qed.

Lemma folds_agree : forall lines st,
  (forall line, In line lines ->
     re_match file_header_pattern line
     = re_match original_file_header_pattern line) ->
  fold_left parse_diff_step lines st
  = fold_left parse_original_diff_step lines st.
Proof.
  induction lines as [|l lines IH]; intros st H; [reflexivity|].
  cbn [fold_left]. rewrite steps_agree by (apply H; now left).
  apply IH. intros line Hl. apply H. now right.
Qed.

(** C9.  The loop bodies of [parse_diff] and [parse_original_diff] differ
    in the file-header pattern only, and for every diff whose file-header
    lines (the lines that either pattern accepts) hold no [[REDACTED]]
    redacted the two entry points return the same locations. *)
Theorem entry_points_agree :
  forall d : text,
    (forall line, In line (split_lines d) ->
       matches file_header_pattern line = true \/
       matches original_file_header_pattern line = true ->
       contains (str "[REDACTED]") line = false) ->
    (forall st line,
       re_match file_header_pattern line
       = re_match original_file_header_pattern line ->
       parse_diff_step st line = parse_original_diff_step st line) /\
    parse_diff (Some d) = parse_original_diff (Some d).
Proof.
  intros d H. split; [exact steps_agree|].
  destruct d as [|a d]; [reflexivity|].
  unfold parse_diff, parse_original_diff. f_equal.
  apply folds_agree. intros line Hl.
  destruct (contains redacted line) eqn:Ec.
  - specialize (H line Hl). unfold matches in H.
    destruct (re_match file_header_pattern line) as [c1|].
    + assert (contains redacted line = false) by (apply H; now left).
      congruence.
    + destruct (re_match original_file_header_pattern line) as [c2|];
        [|reflexivity].
      assert (contains redacted line = false) by (apply H; now right).
      congruence.
  - now apply header_match_agree.
Qed.

Lemma entry_points_agree_witness :
  parse_diff (Some example_diff) = parse_original_diff (Some example_diff).
Proof.
  apply (entry_points_agree example_diff).
  intros line Hl _. vm_compute in Hl.
  repeat (destruct Hl as [<-|Hl]; [vm_compute; reflexivity|]).
  destruct Hl.
Defined.

(** On a header that the sanitiser has marked, the entry points differ. *)
Example entry_points_differ_on_marked_header :
  let d := str "diff --git a[REDACTED]/k.py b[REDACTED]/k.py
@@ -1 +1 @@
+x" in
  parse_diff (Some d) = [mkLocation (str "k.py") 1 (str "x") true] /\
  parse_original_diff (Some d) = [].
Proof. vm_compute. split; reflexivity. Qed.

End EntryPoints.
Import EntryPoints.
Module LineNumbers.


















(** A credential in a file header can take the header away: no line is
    lost, but the line after it is read under the hunk of the file
    before. *)
Lemma sanitize_unmakes_header :
  redacts_inside_lines Settings.patterns Settings.replacement
    header_secret_diff = false /\
  merged Settings.patterns Settings.replacement header_secret_diff = 0 /\
  map line_number (parse header_secret_diff) = [1%Z] /\
  map line_number (parse (sanitize header_secret_diff)) = [1%Z; 2%Z].
Proof. vm_compute. repeat split; reflexivity. Qed.

End LineNumbers.
Import LineNumbers.
Module ReviewTheorems.

Lemma first_location_found : forall test locs loc,
  first_passing test locs loc -> first_location test locs = Some loc.
Proof.
  intros test locs loc (pre & post & -> & Hpre & Hloc).
  induction pre as [|l pre IH]; cbn [app first_location].
  - now rewrite Hloc.
  - rewrite (Hpre l) by now left. apply IH. intros l' Hl'. apply Hpre. now right.
Qed.

Lemma first_location_none : forall test locs,
  none_passing test locs -> first_location test locs = None.
Proof.
  intros test locs H. induction locs as [|l locs IH]; [reflexivity|].
  cbn [first_location]. rewrite (H l) by now left.
  apply IH. intros l' Hl'. apply H. now right.
Qed.

Lemma match_by_name_found : forall earlier name later locs loc,
  (forall n, In n earlier -> none_passing (path_has n) locs) ->
  first_passing (path_has name) locs loc ->
  match_by_name (earlier ++ name :: later) locs = Some loc.
Proof.
  intros earlier name later locs loc He Hn.
  induction earlier as [|n earlier IH]; cbn [app match_by_name].
  - fold (path_has name). now rewrite (first_location_found _ _ _ Hn).
  - fold (path_has n). rewrite first_location_none by (apply He; now left).
    apply IH. intros n' Hn'. apply He. now right.
Qed.

Lemma match_by_name_none : forall names locs,
  (forall n, In n names -> none_passing (path_has n) locs) ->
  match_by_name names locs = None.
Proof.
  induction names as [|n names IH]; intros locs H; [reflexivity|].
  cbn [match_by_name]. fold (path_has n).
  rewrite first_location_none by (apply H; now left).
  apply IH. intros n' Hn'. apply H. now right.
Qed.

Lemma ai_no_marker : forall lines st,
  (forall l, In l lines -> ai_marker l = false) ->
  current_issue st = None -> issues st = [] ->
  finish (fold_left ai_step lines st) = [].
Proof.
  induction lines as [|l lines IH]; intros st H Hc Hi.
  - unfold finish. cbn [fold_left]. now rewrite Hc.
  - cbn [fold_left].
    assert (Hl : ai_marker l = false) by (apply H; now left).
    unfold ai_marker in Hl. apply orb_false_elim in Hl. destruct Hl as [Hl H2].
    apply orb_false_elim in Hl. destruct Hl as [H0 H1].
    assert (Hs : current_issue (ai_step st l) = None /\ issues (ai_step st l) = []).
    { unfold ai_step. rewrite H0, H1, H2.
      destruct (startswith ticks (strip l)).
      - unfold fence. rewrite Hc. cbn. auto.
      - destruct (in_code_block st); [cbn; auto|]. rewrite Hc. auto. }
    destruct Hs. apply IH; auto. intros l' Hl'. apply H. now right.
Qed.

Lemma review_no_marker : forall lines st,
  (forall l, In l lines -> review_marker l = false) ->
  current_issue st = None -> issues st = [] ->
  finish (fold_left review_step lines st) = [].
Proof.
  induction lines as [|l lines IH]; intros st H Hc Hi.
  - unfold finish. cbn [fold_left]. now rewrite Hc.
  - cbn [fold_left].
    assert (Hl : review_marker l = false) by (apply H; now left).
    unfold review_marker in Hl. apply orb_false_elim in Hl.
    destruct Hl as [Hl H2].
    apply orb_false_elim in Hl. destruct Hl as [H0 H1].
    assert (Hs : current_issue (review_step st l) = None /\
                 issues (review_step st l) = []).
    { unfold review_step. rewrite H0, H1, H2.
      destruct (startswith ticks (strip l)).
      - unfold fence. rewrite Hc. cbn. auto.
      - destruct (in_code_block st); [cbn; auto|]. rewrite Hc. auto. }
    destruct Hs. apply IH; auto. intros l' Hl'. apply H. now right.
Qed.


(** X23.  The body of the loop of [parse_ai_feedback_with_line_numbers]
    makes the comment of an issue by an ordered chain: the file names in
    the description of the issue are tried in order, and the first
    location whose path contains the first name that occurs in any path
    is taken; otherwise, when the issue has a code snippet, the first
    location whose content contains the trimmed snippet; otherwise the
    comment carries the path [Unknown] and the line 0. *)
Theorem correlate_follows_fallback_chain :
  forall (locs : list DiffLocation) (i : issue),
    let names := file_matches (description i) in
    (forall earlier name later loc,
       names = earlier ++ name :: later ->
       (forall n, In n earlier -> none_passing (path_has n) locs) ->
       first_passing (path_has name) locs loc ->
       correlate locs i = located i loc) /\
    (forall loc,
       (forall n, In n names -> none_passing (path_has n) locs) ->
       code_snippet i <> [] ->
       first_passing (content_has (code_snippet i)) locs loc ->
       correlate locs i = located i loc) /\
    ((forall n, In n names -> none_passing (path_has n) locs) ->
     code_snippet i = [] \/
     none_passing (content_has (code_snippet i)) locs ->
     correlate locs i = unresolved i).
Proof.
  intros locs i names. repeat split.
  - intros earlier name later loc E He Hn.
    unfold correlate, matched_location. fold names. rewrite E.
    now rewrite (match_by_name_found _ _ _ _ _ He Hn).
  - intros loc Hn Hs Hl.
    unfold correlate, matched_location. fold names.
    rewrite (match_by_name_none _ _ Hn).
    destruct (code_snippet i) as [|a sn] eqn:E; [congruence|].
    cbn [truthy]. fold (content_has (a :: sn)).
    now rewrite (first_location_found _ _ _ Hl).
  - intros Hn Hs.
    unfold correlate, matched_location. fold names.
    rewrite (match_by_name_none _ _ Hn).
    destruct Hs as [Hs|Hs].
    + rewrite Hs. reflexivity.
    + destruct (truthy (code_snippet i)); [|reflexivity].
      fold (content_has (code_snippet i)).
      now rewrite (first_location_none _ _ Hs).
Qed.

Lemma correlate_follows_fallback_chain_witness :
  let i := mkIssue (str "P1") (str "Important Issue")
                   (str "P1: see Bar.swift and Foo.swift") [] None None in
  let loc := mkLocation (str "Foo.swift") 10 (str "let x = y!") true in
  correlate (parse foo_diff) i = located i loc.
Proof.
  intros i loc.
  destruct (correlate_follows_fallback_chain (parse foo_diff) i) as (H & _).
  apply (H [str "Bar.swift"] (str "Foo.swift") [] loc).
  - vm_compute. reflexivity.
  - intros n [<-|[]] l Hl. vm_compute in Hl. destruct Hl as [<-|[]].
    vm_compute. reflexivity.
  - exists [], []. split; [vm_compute; reflexivity|].
    split; [intros l []|vm_compute; reflexivity].
Defined.

(** C6 (code bug).  [parse_ai_feedback_with_line_numbers] calls the
    splitter by a name that its module does not define: for every diff
    that is not empty and every feedback the tool answers with the failure
    of the [NameError] and makes no comment.  So it does on the feedback
    and the location of the claim, where the location of [Foo.swift],
    line 10, is there to be found. *)
Theorem tool_names_an_undefined_splitter :
  (forall (a : ascii) (d feedback : text),
     parse_ai_feedback_with_line_numbers (Some (a :: d)) feedback
     = Failure (str "Failed to parse AI feedback: name '_parse_review_feedback' is not defined")) /\
  module_globals "_parse_review_feedback" = None /\
  parse_diff (Some foo_diff)
  = [mkLocation (str "Foo.swift") 10 (str "let x = y!") true] /\
  parse_ai_feedback_with_line_numbers (Some foo_diff)
    (str "Force unwrap in Foo.swift")
  = Failure (str "Failed to parse AI feedback: name '_parse_review_feedback' is not defined") /\
  parse_ai_feedback_with_line_numbers (Some foo_diff)
    (str "P1: Force unwrap in Foo.swift")
  = Failure (str "Failed to parse AI feedback: name '_parse_review_feedback' is not defined").
Proof.
  split; [|vm_compute; repeat split; reflexivity].
  intros a d feedback. reflexivity.
Qed.

End ReviewTheorems.
Import ReviewTheorems.

(* ------------------------------------------------------------------ *)
(** ** Facts about texts and searching *)

From Stdlib Require Import Permutation Sorted.

Unset Implicit Arguments.

Module TextMore.
Import TextOps.

Lemma text_eqb_eq : forall s t, text_eqb s t = true <-> s = t.
Proof.
  induction s as [|a s IH]; intros [|b t]; cbn [text_eqb];
    try (split; [discriminate|discriminate]); [tauto|].
  rewrite andb_true_iff, Ascii.eqb_eq, IH. split.
  - now intros [-> ->].
  - intro H. inversion H. auto.
Qed.

Lemma text_eqb_refl : forall s, text_eqb s s = true.
Proof. intro s. now apply text_eqb_eq. Qed.

Lemma text_eqb_neq : forall s t, text_eqb s t = false <-> s <> t.
Proof.
  intros s t. split.
  - intros H E. apply text_eqb_eq in E. congruence.
  - intro H. destruct (text_eqb s t) eqn:E; [|reflexivity].
    apply text_eqb_eq in E. contradiction.
Qed.

Lemma text_eqb_sym : forall s t, text_eqb s t = text_eqb t s.
Proof.
  intros s t. destruct (text_eqb t s) eqn:E.
  - apply text_eqb_eq in E. subst. apply text_eqb_refl.
  - apply text_eqb_neq. apply text_eqb_neq in E. congruence.
Qed.

Lemma startswith_iff : forall p s,
  startswith p s = true <-> exists t, s = p ++ t.
Proof.
  intros p s. unfold startswith. split.
  - destruct (strip_prefix p s) as [t|] eqn:E; [|discriminate].
    intros _. exists t. now apply strip_prefix_app.
  - intros [t ->]. now rewrite strip_prefix_here.
Qed.

Lemma contains_iff : forall needle s,
  contains needle s = true <-> exists p q, s = p ++ needle ++ q.
Proof.
  intros needle s. split.
  - induction s as [|a s IH]; cbn [contains]; intro H.
    + rewrite orb_false_r in H. apply startswith_iff in H.
      destruct H as [t ->]. now exists [], t.
    + apply orb_prop in H. destruct H as [H|H].
      * apply startswith_iff in H. destruct H as [t ->]. now exists [], t.
      * destruct (IH H) as (p & q & ->). now exists (a :: p), q.
  - intros (p & q & ->). induction p as [|a p IH].
    + cbn [app]. assert (H : startswith needle (needle ++ q) = true)
        by (apply startswith_iff; now exists q).
      destruct (needle ++ q); cbn [contains]; now rewrite H.
    + cbn [app contains]. rewrite IH. apply orb_true_r.
Qed.

Lemma contains_nil : forall s, contains [] s = true.
Proof. intro s. apply contains_iff. now exists [], s. Qed.

Lemma contains_refl : forall s, contains s s = true.
Proof. intro s. apply contains_iff. exists [], []. now rewrite app_nil_r. Qed.


Lemma fold_left_filter : forall (A : Type) (f : A -> bool) (l acc : list A),
  fold_left (fun acc x => if f x then acc ++ [x] else acc) l acc
  = acc ++ filter f l.
Proof.
  intros A f. induction l as [|x l IH]; intro acc; cbn [fold_left filter].
  - now rewrite app_nil_r.
  - rewrite IH. destruct (f x); [|reflexivity].
    now rewrite <- app_assoc.
Qed.

End TextMore.
Import TextMore.

Module SearchFacts.
Import TextOps Search SearchSpec.

Lemma caseless_slash : caseless "/".
Proof.
  intros [[] [] [] [] [] [] [] []]; vm_compute; reflexivity.
Qed.

Lemma caseless_star : caseless "*".
Proof.
  intros [[] [] [] [] [] [] [] []]; vm_compute; reflexivity.
Qed.

Lemma istrip_caseless : forall w s,
  Forall caseless w -> istrip w s = strip_prefix w s.
Proof.
  induction w as [|c w IH]; intros s H; [reflexivity|].
  inversion H as [|? ? Hc Hw]; subst. cbn [istrip strip_prefix].
  destruct s as [|x s]; [reflexivity|]. rewrite Hc, Ascii.eqb_sym.
  destruct (Ascii.eqb c x); [now apply IH|reflexivity].
Qed.

Lemma istrip_app : forall w1 w2 s,
  istrip (w1 ++ w2) s
  = match istrip w1 s with
    | Some s1 => istrip w2 s1
    | None => None
    end.
Proof.
  induction w1 as [|c w1 IH]; intros w2 s; cbn [app istrip]; [reflexivity|].
  destruct s as [|x s]; [reflexivity|].
  destruct (Ascii.eqb (lower_char x) (lower_char c)); [apply IH|reflexivity].
Qed.

Section Matcher.

Variable R : Type.
Variable n0 : nat.

Lemma m_seqs_cons : forall r rs (k : cont R) c s,
  m n0 (seqs (r :: rs)) k c s = m n0 r (m n0 (seqs rs) k) c s.
Proof. intros r [|r' rs] k c s; reflexivity. Qed.

Lemma m_ichars : forall w (k : cont R) c s,
  m n0 (seqs (map ichar w)) k c s
  = match istrip w s with
    | Some s' => k c s'
    | None => None
    end.
Proof.
  induction w as [|a w IH]; intros k c s; [reflexivity|].
  cbn [map]. rewrite m_seqs_cons. cbn [m ichar istrip].
  destruct s as [|x s]; [reflexivity|].
  destruct (Ascii.eqb (lower_char x) (lower_char a)); [apply IH|reflexivity].
Qed.

Lemma m_IStr : forall w (k : cont R) c s,
  m n0 (IStr w) k c s
  = match istrip (str w) s with
    | Some s' => k c s'
    | None => None
    end.
Proof. intros. apply m_ichars. Qed.

(** A greedy loop before a continuation that cannot fail does not fail. *)
Lemma greedy_total : forall step (k : cont R) fuel c s,
  (forall c' s', k c' s' <> None) -> greedy step k fuel c s <> None.
Proof.
  intros step k fuel c s Hk. destruct fuel as [|f]; cbn [greedy]; [apply Hk|].
  match goal with |- orelse ?x _ <> None => destruct x end;
    cbn [orelse]; [discriminate|apply Hk].
Qed.

End Matcher.

Lemma search_from_found : forall n0 r s,
  search_from n0 r s <> None <->
  exists p t, s = p ++ t /\ exec n0 r t <> None.
Proof.
  intros n0 r s. split.
  - induction s as [|a s IH]; cbn [search_from].
    + destruct (exec n0 r []) eqn:E; [|congruence].
      intros _. exists [], []. split; [reflexivity|congruence].
    + destruct (exec n0 r (a :: s)) eqn:E.
      * intros _. exists [], (a :: s). split; [reflexivity|congruence].
      * intro H. destruct (IH H) as (p & t & -> & Ht).
        now exists (a :: p), t.
  - intros (p & t & -> & Ht). induction p as [|a p IH]; cbn [app].
    + destruct t; cbn [search_from]; destruct (exec n0 r _); congruence.
    + cbn [search_from]. destruct (exec n0 r (a :: p ++ t)); [discriminate|].
      exact IH.
Qed.

(** A pattern that matches only where [w] starts is found only in a text
    that contains [w]. *)
Lemma search_contains : forall n0 r w s,
  (forall t, exec n0 r t <> None -> startswith w t = true) ->
  search_from n0 r s <> None -> contains w s = true.
Proof.
  intros n0 r w s H Hs. apply search_from_found in Hs.
  destruct Hs as (p & t & -> & Ht). apply H in Ht.
  apply startswith_iff in Ht. destruct Ht as [q ->].
  apply contains_iff. now exists p, q.
Qed.

(** A pattern that matches wherever [w] starts is found in every text that
    contains [w]. *)
Lemma contains_search : forall n0 r w s,
  (forall t, startswith w t = true -> exec n0 r t <> None) ->
  contains w s = true -> search_from n0 r s <> None.
Proof.
  intros n0 r w s H Hc. apply contains_iff in Hc.
  destruct Hc as (p & q & ->). apply search_from_found.
  exists p, (w ++ q). split; [reflexivity|]. apply H.
  apply startswith_iff. now exists q.
Qed.

End SearchFacts.
Import SearchFacts.

(* ------------------------------------------------------------------ *)
(** ** The queries over the parsed locations *)

Module QueryTheorems.
Import TextOps Search SearchSpec DiffQueries QuerySpec.

Lemma find_issue_locations_filter : forall diff patterns,
  find_issue_locations diff patterns
  = filter (fun l => any_pattern patterns (content l)) (parse_diff diff).
Proof.
  intros diff patterns. unfold find_issue_locations.
  now rewrite fold_left_filter.
Qed.

Lemma slashes_caseless : Forall caseless (str "//").
Proof. repeat constructor; apply caseless_slash. Qed.

Lemma doc_open_caseless : Forall caseless (str "/**").
Proof.
  repeat constructor; first [apply caseless_slash | apply caseless_star].
Qed.

(** A pattern that begins with the literal [//] matches only where two
    slashes start. *)
Lemma slashes_first : forall n0 (rest : string) r t,
  exec n0 (Seq (seqs (map ichar (str "//" ++ str rest))) r) t <> None ->
  startswith (str "//") t = true.
Proof.
  intros n0 rest r t H. unfold exec in H. cbn [m] in H.
  rewrite m_ichars, istrip_app in H.
  rewrite (istrip_caseless _ _ slashes_caseless) in H.
  unfold startswith. destruct (strip_prefix (str "//") t); congruence.
Qed.

Lemma slashes_then : forall n0 r t,
  exec n0 (Seq (IStr "//") r) t <> None -> startswith (str "//") t = true.
Proof.
  intros n0 r t H. unfold exec in H. cbn [m] in H.
  rewrite m_IStr in H. rewrite (istrip_caseless _ _ slashes_caseless) in H.
  unfold startswith. destruct (strip_prefix (str "//") t); congruence.
Qed.

Lemma slashes_only : forall n0 (rest : string) t,
  exec n0 (seqs (map ichar (str "//" ++ str rest))) t <> None ->
  startswith (str "//") t = true.
Proof.
  intros n0 rest t H. unfold exec in H.
  rewrite m_ichars, istrip_app in H.
  rewrite (istrip_caseless _ _ slashes_caseless) in H.
  unfold startswith. destruct (strip_prefix (str "//") t); congruence.
Qed.

Lemma comment_pattern : forall content,
  re_search (seqs [IStr "//"; Star Settings.ws]) content <> None <->
  contains (str "//") content = true.
Proof.
  intro content. unfold re_search. split.
  - apply search_contains. intros t. apply slashes_then.
  - apply contains_search. intros t Ht. unfold exec. cbn [seqs m].
    rewrite m_IStr, (istrip_caseless _ _ slashes_caseless).
    unfold startswith in Ht.
    destruct (strip_prefix (str "//") t) as [t'|]; [|discriminate].
    apply greedy_total. discriminate.
Qed.

Lemma doc_open_pattern : forall content,
  re_search (IStr "/**") content <> None <->
  contains (str "/**") content = true.
Proof.
  intro content. unfold re_search. split.
  - apply search_contains. intros t H. unfold exec in H.
    rewrite m_IStr, (istrip_caseless _ _ doc_open_caseless) in H.
    unfold startswith. destruct (strip_prefix (str "/**") t); congruence.
  - apply contains_search. intros t Ht. unfold exec.
    rewrite m_IStr, (istrip_caseless _ _ doc_open_caseless).
    unfold startswith in Ht.
    destruct (strip_prefix (str "/**") t); [discriminate|discriminate].
Qed.

Lemma any_documentation_pattern : forall content,
  any_pattern documentation_patterns content
  = contains (str "//") content || contains (str "/**") content.
Proof.
  intro content.
  assert (H1 : re_search (seqs [IStr "//"; Star Settings.ws; IStr "TODO"])
                 content <> None -> contains (str "//") content = true).
  { apply search_contains. intro t. apply slashes_then. }
  assert (H2 : re_search (seqs [IStr "//"; Star Settings.ws; IStr "FIXME"])
                 content <> None -> contains (str "//") content = true).
  { apply search_contains. intro t. apply slashes_then. }
  assert (H5 : re_search (IStr "///") content <> None ->
               contains (str "//") content = true).
  { apply search_contains. intro t. apply (slashes_only _ "/"). }
  assert (H6 : re_search (IStr "// MARK:") content <> None ->
               contains (str "//") content = true).
  { apply search_contains. intro t. apply (slashes_only _ " MARK:"). }
  pose proof (comment_pattern content) as H4.
  pose proof (doc_open_pattern content) as H3.
  unfold documentation_patterns. cbn [any_pattern].
  destruct (re_search (seqs [IStr "//"; Star Settings.ws; IStr "TODO"]) content).
  { rewrite H1 by discriminate. reflexivity. }
  destruct (re_search (seqs [IStr "//"; Star Settings.ws; IStr "FIXME"]) content).
  { rewrite H2 by discriminate. reflexivity. }
  destruct (re_search (IStr "/**") content).
  { rewrite (proj1 H3) by discriminate. now rewrite orb_true_r. }
  destruct (re_search (seqs [IStr "//"; Star Settings.ws]) content).
  { rewrite (proj1 H4) by discriminate. reflexivity. }
  destruct (contains (str "//") content).
  { exfalso. now apply (proj2 H4). }
  destruct (contains (str "/**") content).
  { exfalso. now apply (proj2 H3). }
  destruct (re_search (IStr "///") content).
  { discriminate H5. discriminate. }
  destruct (re_search (IStr "// MARK:") content).
  { discriminate H6. discriminate. }
  reflexivity.
Qed.

(** X1.  [extract_documentation_issues] returns, in the order of the diff,
    exactly the added lines whose content contains two slashes or the
    opening of a documentation comment, wherever they stand in the line:
    the patterns for TODO, FIXME, the triple slash and MARK add nothing to
    the pattern of two slashes. *)
Theorem documentation_issues_are_commented_lines :
  forall diff : option text,
    extract_documentation_issues diff
    = filter has_comment (parse_diff diff).
Proof.
  intro diff. unfold extract_documentation_issues.
  rewrite find_issue_locations_filter. apply filter_ext.
  intro l. apply any_documentation_pattern.
Qed.

End QueryTheorems.

Module GroupTheorems.
Import TextOps DiffQueries QuerySpec.

Lemma firsts_in : forall ks k, In k (firsts ks) <-> In k ks.
Proof.
  induction ks as [|a ks IH]; intro k; cbn [firsts]; [tauto|].
  cbn [In]. rewrite filter_In, IH. split.
  - intros [H|[H _]]; auto.
  - intros [H|H]; auto. destruct (text_eqb k a) eqn:E.
    + apply text_eqb_eq in E. auto.
    + right. auto.
Qed.

Lemma firsts_nodup : forall ks, NoDup (firsts ks).
Proof.
  induction ks as [|a ks IH]; cbn [firsts]; constructor.
  - rewrite filter_In. intros [_ H]. now rewrite text_eqb_refl in H.
  - now apply NoDup_filter.
Qed.

Lemma mem_in : forall k ks, existsb (text_eqb k) ks = true <-> In k ks.
Proof.
  intros k ks. rewrite existsb_exists. split.
  - intros (x & Hx & E). apply text_eqb_eq in E. now subst.
  - intro H. exists k. split; [exact H|apply text_eqb_refl].
Qed.

Lemma mem_firsts : forall k ks,
  existsb (text_eqb k) (firsts ks) = existsb (text_eqb k) ks.
Proof.
  intros k ks. destruct (existsb (text_eqb k) ks) eqn:E.
  - apply mem_in. apply firsts_in. now apply mem_in.
  - destruct (existsb (text_eqb k) (firsts ks)) eqn:E'; [|reflexivity].
    apply (proj1 (mem_in _ _)) in E'. apply (proj1 (firsts_in _ _)) in E'.
    apply (proj2 (mem_in _ _)) in E'. congruence.
Qed.

Lemma firsts_snoc : forall ks k,
  firsts (ks ++ [k])
  = if existsb (text_eqb k) ks then firsts ks else firsts ks ++ [k].
Proof.
  induction ks as [|a ks IH]; intro k; [reflexivity|].
  cbn [app firsts existsb]. rewrite IH.
  destruct (text_eqb k a) eqn:E; cbn [orb].
  - destruct (existsb (text_eqb k) ks); [reflexivity|].
    rewrite filter_app. cbn [filter]. rewrite E. cbn [negb].
    now rewrite app_nil_r.
  - destruct (existsb (text_eqb k) ks); [reflexivity|].
    rewrite filter_app. cbn [filter]. rewrite E. reflexivity.
Qed.

Lemma has_key_map : forall (F : text -> list DiffLocation) K k,
  has_key k (map (fun k' => (k', F k')) K) = existsb (text_eqb k) K.
Proof.
  intros F K k. unfold has_key. induction K as [|a K IH]; [reflexivity|].
  cbn [map existsb fst]. now rewrite IH, (text_eqb_sym a k).
Qed.

Lemma append_at_present : forall (F G : text -> list DiffLocation) K k l,
  NoDup K ->
  G k = F k ++ [l] -> (forall k', k' <> k -> G k' = F k') ->
  In k K ->
  append_at k l (map (fun k' => (k', F k')) K)
  = map (fun k' => (k', G k')) K.
Proof.
  intros F G K k l Hn Hk Ho. induction K as [|a K IH]; intro Hin;
    [destruct Hin|].
  inversion Hn as [|? ? Ha HK]; subst. cbn [map append_at].
  destruct (text_eqb a k) eqn:E.
  - apply text_eqb_eq in E. subst a. rewrite Hk. f_equal.
    apply map_ext_in. intros k' Hk'. rewrite Ho; [reflexivity|].
    intro E. subst. contradiction.
  - apply text_eqb_neq in E. rewrite (Ho a E). f_equal.
    apply IH; [exact HK|]. destruct Hin as [Hin|Hin]; congruence.
Qed.

Lemma of_file_snoc : forall k locs l,
  of_file k (locs ++ [l])
  = of_file k locs ++ (if text_eqb (file_path l) k then [l] else []).
Proof.
  intros k locs l. unfold of_file. rewrite filter_app. reflexivity.
Qed.

Lemma of_file_absent : forall k locs,
  ~ In k (map file_path locs) -> of_file k locs = [].
Proof.
  intros k locs. induction locs as [|l locs IH]; intro H; [reflexivity|].
  unfold of_file. cbn [filter]. destruct (text_eqb (file_path l) k) eqn:E.
  - apply text_eqb_eq in E. exfalso. apply H. now left.
  - apply IH. intro H'. apply H. now right.
Qed.

Lemma grouped_step : forall locs l,
  get_file_changes_step (grouped locs) l = grouped (locs ++ [l]).
Proof.
  intros locs l. unfold get_file_changes_step, grouped.
  rewrite has_key_map, mem_firsts, map_app. cbn [map]. rewrite firsts_snoc.
  set (k := file_path l). set (ks := map file_path locs).
  destruct (existsb (text_eqb k) ks) eqn:E; cbn [negb].
  - apply (proj1 (mem_in _ _)) in E. apply append_at_present.
    + apply firsts_nodup.
    + rewrite of_file_snoc. fold k. now rewrite text_eqb_refl.
    + intros k' Hk'. rewrite of_file_snoc. fold k.
      apply not_eq_sym in Hk'. apply text_eqb_neq in Hk'. rewrite Hk'.
      now rewrite app_nil_r.
    + now apply firsts_in.
  - assert (Hk : ~ In k ks).
    { intro H. apply (proj2 (mem_in _ _)) in H. congruence. }
    change (map (fun k0 => (k0, of_file k0 locs)) (firsts ks) ++ [(k, [])])
      with (map (fun k0 => (k0, of_file k0 locs)) (firsts ks)
            ++ map (fun k0 => (k0, of_file k0 locs ++ [])) []
            ++ [(k, [])]).
    cbn [map app]. rewrite map_app. cbn [map].
    assert (Hpre : forall d post,
              ~ In k (map fst d) ->
              append_at k l (d ++ (k, []) :: post) = d ++ (k, [l]) :: post).
    { induction d as [|[a ls] d IH]; intros post H; cbn [app append_at].
      - now rewrite text_eqb_refl.
      - destruct (text_eqb a k) eqn:Ea.
        + apply text_eqb_eq in Ea. subst. exfalso. apply H. now left.
        + rewrite IH; [reflexivity|]. intro H'. apply H. now right. }
    rewrite Hpre.
    + f_equal.
      * apply map_ext_in. intros k' Hk'. rewrite of_file_snoc. fold k.
        destruct (text_eqb k k') eqn:Ek; [|now rewrite app_nil_r].
        apply text_eqb_eq in Ek. subst k'. apply (proj1 (firsts_in _ _)) in Hk'.
        contradiction.
      * rewrite of_file_snoc. fold k. rewrite text_eqb_refl.
        rewrite (of_file_absent k locs Hk). reflexivity.
    + rewrite map_map. cbn [fst]. rewrite map_id. intro H.
      apply (proj1 (firsts_in _ _)) in H. contradiction.
Qed.

Lemma fold_grouped : forall more locs,
  fold_left get_file_changes_step more (grouped locs)
  = grouped (locs ++ more).
Proof.
  induction more as [|l more IH]; intro locs; cbn [fold_left].
  - now rewrite app_nil_r.
  - rewrite grouped_step, IH, <- app_assoc. reflexivity.
Qed.

(** X2.  [get_file_changes] lists the files of the diff once each, in the
    order in which the diff first yields a location for them, and gives
    each file all the locations of [parse_diff] with that path, in the
    order of the diff. *)
Theorem file_changes_group_by_path :
  forall diff : option text,
    get_file_changes diff = grouped (parse_diff diff).
Proof.
  intro diff. unfold get_file_changes.
  apply (fold_grouped (parse_diff diff) []).
Qed.

End GroupTheorems.

(* ------------------------------------------------------------------ *)
(** ** The issues of a feedback *)

Module IssueTheorems.
Import IssueSpec Preview.

(** The cases of a step of [_parse_ai_feedback]. *)
Lemma ai_step_cases : forall st line,
  (ai_marker line = true /\
   exists i, ai_step st line = open_issue st i /\ labelled i /\
             description i = strip line /\ code_snippet i = [] /\
             issue_file_path i = None /\ issue_line_number i = None) \/
  (ai_marker line = false /\
   (ai_step st line = fence st \/
    ai_step st line
    = mkF (issues st) (current_issue st) (current_code st ++ [strip line])
          true \/
    (exists i, current_issue st = Some i /\ strip line <> [] /\
       ai_step st line
       = mkF (issues st)
             (Some (set_description i
                      (description i ++ str " " ++ strip line)))
             (current_code st) (in_code_block st)) \/
    ai_step st line = st)).
Proof.
  intros st line. unfold ai_marker, ai_step.
  destruct (any_in _ (strip line)).
  { left. split; [reflexivity|]. eexists. split; [reflexivity|].
    unfold labelled. cbn. auto 10. }
  destruct (any_in _ (strip line)).
  { left. split; [reflexivity|]. eexists. split; [reflexivity|].
    unfold labelled. cbn. auto 10. }
  destruct (any_in _ (strip line)).
  { left. split; [reflexivity|]. eexists. split; [reflexivity|].
    unfold labelled. cbn. auto 10. }
  right. split; [reflexivity|].
  destruct (startswith ticks (strip line)); [now left|].
  destruct (in_code_block st); [right; now left|].
  destruct (current_issue st) as [i|]; [|now repeat right].
  destruct (truthy (strip line)) eqn:Et; [|now repeat right].
  destruct (text_eqb (description i) (strip line)); [now repeat right|].
  right. right. left. exists i. repeat split.
  intro E. rewrite E in Et. discriminate.
Qed.

(** The cases of a step of [_parse_review_feedback]. *)
Lemma review_step_cases : forall st line,
  (review_marker line = true /\
   exists i, review_step st line = open_issue st i /\ labelled i /\
             description i = strip line /\ code_snippet i = [] /\
             issue_file_path i = Some unknown /\
             issue_line_number i = Some 0%Z) \/
  (review_marker line = false /\
   (review_step st line = fence st \/
    review_step st line
    = mkF (issues st) (current_issue st) (current_code st ++ [strip line])
          true \/
    (exists i, current_issue st = Some i /\
       review_step st line
       = mkF (issues st)
             (Some (set_description i
                      (description i ++ str " " ++ strip line)))
             (current_code st) (in_code_block st)) \/
    review_step st line = st)).
Proof.
  intros st line. unfold review_marker, review_step.
  destruct (marked "P0" (strip line)).
  { left. split; [reflexivity|]. eexists. split; [reflexivity|].
    unfold labelled. cbn. auto 10. }
  destruct (marked "P1" (strip line)).
  { left. split; [reflexivity|]. eexists. split; [reflexivity|].
    unfold labelled. cbn. auto 10. }
  destruct (marked "P2" (strip line)).
  { left. split; [reflexivity|]. eexists. split; [reflexivity|].
    unfold labelled. cbn. auto 10. }
  right. split; [reflexivity|].
  destruct (startswith ticks (strip line)); [now left|].
  destruct (in_code_block st); [right; now left|].
  destruct (current_issue st) as [i|]; [|now repeat right].
  destruct (text_eqb (description i) (strip line)); [now repeat right|].
  right. right. left. exists i. repeat split.
Qed.

Lemma finish_open : forall st i, finish (open_issue st i) = finish st ++ [i].
Proof.
  intros st i. unfold finish, open_issue. cbn.
  destruct (current_issue st); reflexivity.
Qed.

Lemma finish_fence_length : forall st,
  List.length (finish (fence st)) = List.length (finish st).
Proof.
  intro st. unfold finish, fence. destruct (current_issue st) as [i|] eqn:E.
  - destruct (negb (negb (in_code_block st))); cbn; rewrite ?E;
      now rewrite !length_app.
  - cbn. rewrite ?E. reflexivity.
Qed.

Section Count.

Variable step : fstate -> text -> fstate.
Variable marker : text -> bool.

Hypothesis step_length : forall st line,
  List.length (finish (step st line))
  = List.length (finish st) + (if marker line then 1 else 0).

Lemma fold_count : forall lines st,
  List.length (finish (fold_left step lines st))
  = List.length (finish st) + List.length (filter marker lines).
Proof.
  induction lines as [|l lines IH]; intro st; cbn [fold_left filter].
  - cbn. lia.
  - rewrite IH, step_length. destruct (marker l); cbn [List.length]; lia.
Qed.

End Count.

Lemma ai_step_length : forall st line,
  List.length (finish (ai_step st line))
  = List.length (finish st) + (if ai_marker line then 1 else 0).
Proof.
  intros st line.
  destruct (ai_step_cases st line)
    as [[-> (i & -> & _)]|[-> [->|[->|[(i & E & _ & ->)| ->]]]]].
  - rewrite finish_open, length_app. reflexivity.
  - rewrite finish_fence_length. lia.
  - unfold finish. cbn. lia.
  - unfold finish. cbn [current_issue issues]. rewrite E.
    rewrite !length_app. cbn. lia.
  - lia.
Qed.

Lemma review_step_length : forall st line,
  List.length (finish (review_step st line))
  = List.length (finish st) + (if review_marker line then 1 else 0).
Proof.
  intros st line.
  destruct (review_step_cases st line)
    as [[-> (i & -> & _)]|[-> [->|[->|[(i & E & ->)| ->]]]]].
  - rewrite finish_open, length_app. reflexivity.
  - rewrite finish_fence_length. lia.
  - unfold finish. cbn. lia.
  - unfold finish. cbn [current_issue issues]. rewrite E.
    rewrite !length_app. cbn. lia.
  - lia.
Qed.

(** X3.  Each splitter returns one issue for every line of the feedback
    that carries one of its severity markers, wherever the line stands: in
    a description, in a code block, before or after any other line. *)
Theorem one_issue_per_marked_line :
  forall feedback : text,
    List.length (_parse_ai_feedback feedback)
    = List.length (filter ai_marker (split_lines feedback)) /\
    List.length (_parse_review_feedback feedback)
    = List.length (filter review_marker (split_lines feedback)).
Proof.
  intro feedback. unfold _parse_ai_feedback, _parse_review_feedback. split.
  - now rewrite (fold_count ai_step ai_marker ai_step_length).
  - now rewrite (fold_count review_step review_marker review_step_length).
Qed.

(** A property [P] of issues that the splitters keep, given a property
    [Q] of the trimmed lines: [P] holds of the issue a marker line opens,
    is kept when a line is added to the description and does not depend on
    the code snippet. *)
Section Kept.

Variable P : issue -> Prop.
Variable Q : text -> Prop.

Hypothesis P_description : forall i d,
  P i -> Q d -> P (set_description i (description i ++ str " " ++ d)).
Hypothesis P_snippet : forall i s, P i -> P (set_code_snippet i s).

Definition all_kept (st : fstate) : Prop := Forall P (finish st).

Lemma all_kept_parts : forall st,
  all_kept st <->
  Forall P (issues st) /\ (forall i, current_issue st = Some i -> P i).
Proof.
  intro st. unfold all_kept, finish.
  destruct (current_issue st) as [i|].
  - rewrite Forall_app. split.
    + intros [H1 H2]. split; [exact H1|]. intros i' E. inversion E; subst.
      now inversion H2.
    + intros [H1 H2]. split; [exact H1|]. constructor; auto.
  - split; [intro H; split; [exact H|discriminate]|tauto].
Qed.

Lemma kept_open : forall st i, all_kept st -> P i -> all_kept (open_issue st i).
Proof.
  intros st i H Hi. unfold all_kept. rewrite finish_open.
  apply Forall_app. split; [exact H|]. now constructor.
Qed.

Lemma kept_fence : forall st, all_kept st -> all_kept (fence st).
Proof.
  intros st H. apply all_kept_parts in H. destruct H as [H1 H2].
  apply all_kept_parts. unfold fence.
  destruct (current_issue st) as [i|] eqn:E.
  - destruct (negb (negb (in_code_block st))); cbn;
      (split; [exact H1|]); intros i' E'; rewrite ?E in E';
      inversion E'; subst; try apply P_snippet; now apply H2.
  - cbn. split; [exact H1|]. rewrite ?E. intros i' E'.
    rewrite ?E in E'. discriminate.
Qed.

Lemma kept_code : forall st code b,
  all_kept st -> all_kept (mkF (issues st) (current_issue st) code b).
Proof.
  intros st code b H. apply all_kept_parts in H. now apply all_kept_parts.
Qed.

Lemma kept_describe : forall st i d,
  current_issue st = Some i -> all_kept st -> Q d ->
  all_kept (mkF (issues st)
                (Some (set_description i (description i ++ str " " ++ d)))
                (current_code st) (in_code_block st)).
Proof.
  intros st i d E H Hd. apply all_kept_parts in H. destruct H as [H1 H2].
  apply all_kept_parts. cbn. split; [exact H1|].
  intros i' E'. inversion E'; subst. apply P_description; auto.
Qed.

Lemma kept_ai :
  (forall i, labelled i -> issue_file_path i = None ->
             issue_line_number i = None -> Q (description i) -> P i) ->
  forall lines st,
    (forall l, In l lines -> Q (strip l)) ->
    all_kept st -> all_kept (fold_left ai_step lines st).
Proof.
  intro Hnew. induction lines as [|l lines IH]; intros st HQ H; [exact H|].
  cbn [fold_left]. apply IH; [intros l' Hl'; apply HQ; now right|].
  assert (Hl : Q (strip l)) by (apply HQ; now left).
  destruct (ai_step_cases st l)
    as [[_ (i & -> & Hi & Hd & _ & Hf & Hn)]
       |[_ [->|[->|[(i & E & _ & ->)| ->]]]]].
  - apply kept_open; auto. apply Hnew; auto. now rewrite Hd.
  - now apply kept_fence.
  - now apply kept_code.
  - now apply kept_describe.
  - exact H.
Qed.

Lemma kept_review :
  (forall i, labelled i -> issue_file_path i = Some unknown ->
             issue_line_number i = Some 0%Z -> Q (description i) -> P i) ->
  forall lines st,
    (forall l, In l lines -> Q (strip l)) ->
    all_kept st -> all_kept (fold_left review_step lines st).
Proof.
  intro Hnew. induction lines as [|l lines IH]; intros st HQ H; [exact H|].
  cbn [fold_left]. apply IH; [intros l' Hl'; apply HQ; now right|].
  assert (Hl : Q (strip l)) by (apply HQ; now left).
  destruct (review_step_cases st l)
    as [[_ (i & -> & Hi & Hd & _ & Hf & Hn)]
       |[_ [->|[->|[(i & E & ->)| ->]]]]].
  - apply kept_open; auto. apply Hnew; auto. now rewrite Hd.
  - now apply kept_fence.
  - now apply kept_code.
  - now apply kept_describe.
  - exact H.
Qed.

End Kept.

Lemma ai_issues_labelled : forall feedback,
  Forall (fun i => labelled i /\ issue_file_path i = None /\
                   issue_line_number i = None)
         (_parse_ai_feedback feedback).
Proof.
  intro feedback. unfold _parse_ai_feedback.
  apply (kept_ai (fun i => labelled i /\ issue_file_path i = None /\
                           issue_line_number i = None)
                 (fun _ => True)); auto.
  constructor.
Qed.

Lemma review_issues_labelled : forall feedback,
  Forall (fun i => labelled i /\ issue_file_path i = Some unknown /\
                   issue_line_number i = Some 0%Z)
         (_parse_review_feedback feedback).
Proof.
  intro feedback. unfold _parse_review_feedback.
  apply (kept_review (fun i => labelled i /\
                               issue_file_path i = Some unknown /\
                               issue_line_number i = Some 0%Z)
                     (fun _ => True)); auto.
  constructor.
Qed.

Lemma split_lines_one_line : forall s l,
  In l (split_lines s) -> one_line l.
Proof.
  unfold one_line. induction s as [|a s IH]; intros l H.
  - destruct H as [<-|[]]. reflexivity.
  - cbn [split_lines] in H. destruct (Ascii.eqb a nl) eqn:E.
    + destruct H as [<-|H]; [reflexivity|now apply IH].
    + destruct (split_lines s) as [|l0 ls] eqn:Es.
      * destruct H as [<-|[]]. rewrite count_nl_cons, E.
        reflexivity.
      * destruct H as [<-|H].
        -- rewrite count_nl_cons, E. apply IH. now left.
        -- apply IH. now right.
Qed.

Lemma lstrip_one_line : forall s, one_line s -> one_line (lstrip s).
Proof.
  unfold one_line. induction s as [|a s IH]; intro H; [reflexivity|].
  cbn [lstrip]. destruct (is_space a); [|exact H].
  apply IH. rewrite count_nl_cons in H. destruct (Ascii.eqb a nl); lia.
Qed.

Lemma rev_one_line : forall s, one_line s -> one_line (rev s).
Proof.
  unfold one_line. induction s as [|a s IH]; intro H; [reflexivity|].
  cbn [rev]. rewrite count_nl_app. rewrite count_nl_cons in H.
  rewrite count_nl_cons. destruct (Ascii.eqb a nl); [discriminate|].
  cbn [plus] in *. change (count_nl []) with 0.
  rewrite IH; [reflexivity|exact H].
Qed.

Lemma strip_one_line : forall s, one_line s -> one_line (strip s).
Proof.
  intros s H. unfold strip.
  apply rev_one_line, lstrip_one_line, rev_one_line, lstrip_one_line, H.
Qed.

(** X4.  The description of every issue that a splitter returns is one
    line: the marker line and the lines after it are trimmed and joined by
    single spaces, so that no line break of the feedback reaches a
    description. *)
Theorem descriptions_are_one_line :
  forall feedback : text,
    Forall (fun i => one_line (description i))
           (_parse_ai_feedback feedback) /\
    Forall (fun i => one_line (description i))
           (_parse_review_feedback feedback).
Proof.
  intro feedback.
  assert (Hd : forall i d, one_line (description i) -> one_line d ->
            one_line (description
                        (set_description i (description i ++ str " " ++ d)))).
  { intros i d Hi Hq. unfold one_line in *. cbn [description set_description].
    rewrite !count_nl_app, Hi, Hq. reflexivity. }
  assert (Hl : forall l, In l (split_lines feedback) -> one_line (strip l)).
  { intros l H. apply strip_one_line. eapply split_lines_one_line; eauto. }
  split.
  - unfold _parse_ai_feedback.
    apply (kept_ai (fun i => one_line (description i)) one_line); auto.
    constructor.
  - unfold _parse_review_feedback.
    apply (kept_review (fun i => one_line (description i)) one_line); auto.
    constructor.
Qed.

Lemma count_levels : forall l : list issue,
  Forall labelled l ->
  count_level "P0" l + count_level "P1" l + count_level "P2" l
  = List.length l.
Proof.
  unfold count_level. induction l as [|i l IH]; intro H; [reflexivity|].
  inversion H as [|? ? Hi Hf]; subst. specialize (IH Hf). cbn [filter].
  destruct Hi as [[-> _]|[[-> _]|[-> _]]]; cbn [text_eqb];
    cbn in IH |- *; lia.
Qed.

Lemma preview_of_shape : forall (path : option text) (line : option Z)
  (l : list issue) (a : answer),
  Forall (fun i => labelled i /\ issue_file_path i = path /\
                   issue_line_number i = line) l ->
  preview_of l = Some a ->
  adds_up a /\ Forall (entry_of path line) (comments a) /\
  List.length (comments a) = S (List.length l).
Proof.
  intros path line l a H E.
  assert (Hl : Forall labelled l).
  { eapply Forall_impl; [|exact H]. cbn. tauto. }
  pose proof (count_levels l Hl) as Hc.
  unfold preview_of in E. destruct l as [|i0 l0] eqn:El; [discriminate|].
  rewrite <- El in *. inversion E; subst a; clear E.
  unfold adds_up. cbn [severity_breakdown total_comments comments].
  rewrite length_app, length_map. cbn [List.length].
  repeat split; try lia.
  apply Forall_app. split.
  - apply Forall_map. eapply Forall_impl; [|exact H].
    intros i (Hi & Hf & Hn). unfold issue_comment, entry_of.
    repeat split; auto.
    destruct Hi as [[-> _]|[[-> _]|[-> _]]]; cbn; auto.
  - constructor; [|constructor]. cbn. lia.
Qed.

(** X5.  When [parse_and_preview_comments] finds issues in the feedback, its
    answer counts one comment for each issue and one summary, the three
    levels of its breakdown add up to the number of issues, every comment
    on an issue has one of the three levels and neither path nor line, and
    the summary counts the issues of the three levels. *)
Theorem preview_counts_add_up :
  forall (ai_review_feedback : text) (a : answer),
    parse_and_preview_comments ai_review_feedback = Some a ->
    adds_up a /\ Forall (entry_of None None) (comments a) /\
    List.length (comments a)
    = S (List.length (_parse_ai_feedback ai_review_feedback)).
Proof.
  intros fb a E. apply (preview_of_shape None None _ a); [|exact E].
  apply ai_issues_labelled.
Qed.

Lemma preview_counts_add_up_witness :
  exists a,
    parse_and_preview_comments (str "P0: crash
P2: typo") = Some a /\
    adds_up a /\ Forall (entry_of None None) (comments a) /\
    List.length (comments a) = 3.
Proof.
  eexists. split; [reflexivity|].
  apply (preview_counts_add_up (str "P0: crash
P2: typo")). reflexivity.
Defined.

(** X6.  When [auto_post_review_comments] finds issues in the feedback, its
    answer counts one comment for each issue and one summary, the three
    levels add up, and every comment on an issue carries the path
    [Unknown] and the line 0: the tool never locates a comment. *)
Theorem auto_post_comments_are_unlocated :
  forall (review_feedback : text) (a : answer),
    auto_post_review_comments review_feedback = Some a ->
    adds_up a /\
    Forall (entry_of (Some unknown) (Some 0%Z)) (comments a) /\
    List.length (comments a)
    = S (List.length (_parse_review_feedback review_feedback)).
Proof.
  intros fb a E.
  apply (preview_of_shape (Some unknown) (Some 0%Z) _ a); [|exact E].
  apply review_issues_labelled.
Qed.

Lemma auto_post_comments_are_unlocated_witness :
  exists a,
    auto_post_review_comments (str "P1: leak in Foo.swift") = Some a /\
    adds_up a /\
    Forall (entry_of (Some unknown) (Some 0%Z)) (comments a) /\
    List.length (comments a) = 2.
Proof.
  eexists. split; [reflexivity|].
  apply (auto_post_comments_are_unlocated (str "P1: leak in Foo.swift")).
  reflexivity.
Defined.

End IssueTheorems.

(* ------------------------------------------------------------------ *)
(** ** The matching of pull requests *)

Module MatchingTheorems.
Import TextOps Matching MatchingSpec.

(** The test of [_find_exact_matches] on one pull request. *)
Lemma exact_test_names : forall (identifier : text) (pr : PullRequest),
  text_eqb (lower identifier) (lower (title pr))
  || text_eqb (lower identifier) (lower (id pr))
  || contains (lower identifier) (lower (title pr))
  = names identifier pr.
Proof.
  intros identifier pr. unfold names.
  destruct (text_eqb (lower identifier) (lower (title pr))) eqn:E.
  - apply text_eqb_eq in E. rewrite E, contains_refl. reflexivity.
  - cbn [orb]. apply orb_comm.
Qed.

(** X7.  [_find_exact_matches] keeps, in their order, exactly the pull
    requests whose title contains the identifier or whose id is the
    identifier, both up to case: the test for a title equal to the
    identifier adds nothing to the test for a title that contains it. *)
Theorem exact_matches_are_substring_matches :
  forall (identifier : text) (prs : list PullRequest),
    _find_exact_matches identifier prs = filter (names identifier) prs.
Proof.
  intros identifier prs. unfold _find_exact_matches. apply filter_ext.
  intro pr. apply exact_test_names.
Qed.

Section Fuzzy.

Variable ratio : text -> text -> nat.

(** X8.  With an empty identifier every pull request is an exact match:
    [find_multiple_prs] returns all of them, in their order. *)
Theorem empty_identifier_matches_all :
  forall prs : list PullRequest, find_multiple_prs ratio [] prs = prs.
Proof.
  intro prs. unfold find_multiple_prs.
  assert (E : _find_exact_matches [] prs = prs).
  { unfold _find_exact_matches. cbv zeta.
    induction prs as [|pr prs IH]; [reflexivity|]. cbn [filter].
    rewrite exact_test_names. unfold names at 1.
    change (lower []) with (@nil ascii) in *.
    rewrite contains_nil. cbn [orb]. now rewrite IH. }
  rewrite E. destruct prs; reflexivity.
Qed.

(** X9.  [find_pr] answers with a pull request exactly when
    [find_multiple_prs] returns that pull request alone: two or more
    matches of either kind, or none, give no answer. *)
Theorem find_pr_is_the_single_match :
  forall (identifier : text) (prs : list PullRequest) (pr : PullRequest),
    find_pr ratio identifier prs = Some pr <->
    find_multiple_prs ratio identifier prs = [pr].
Proof.
  intros identifier prs pr. unfold find_pr, find_multiple_prs.
  destruct (_find_exact_matches identifier prs) as [|x [|y rest]].
  - destruct (_find_fuzzy_matches ratio identifier prs) as [|x [|y rest]].
    + split; discriminate.
    + split; intro H; inversion H; reflexivity.
    + split; discriminate.
  - split; intro H; inversion H; reflexivity.
  - split; discriminate.
Qed.

Lemma insert_by_perm : forall score x l,
  Permutation (insert_by score x l) (x :: l).
Proof.
  intros score x. induction l as [|y l IH]; cbn [insert_by]; [reflexivity|].
  destruct (score y <=? score x); [reflexivity|].
  rewrite IH. apply perm_swap.
Qed.

Lemma sorted_desc_perm : forall score l, Permutation (sorted_desc score l) l.
Proof.
  intros score. induction l as [|x l IH]; [constructor|].
  unfold sorted_desc in *. cbn [fold_right]. rewrite insert_by_perm.
  now constructor.
Qed.

Lemma insert_by_sorted : forall (score : PullRequest -> nat) x l,
  StronglySorted (fun a b => score b <= score a) l ->
  StronglySorted (fun a b => score b <= score a) (insert_by score x l).
Proof.
  intros score x. induction l as [|y l IH]; intro H; cbn [insert_by].
  - repeat constructor.
  - inversion H as [|? ? Hl Hy]; subst.
    destruct (score y <=? score x) eqn:E.
    + apply Nat.leb_le in E. constructor; [exact H|].
      constructor; [exact E|]. eapply Forall_impl; [|exact Hy].
      cbn. intros. lia.
    + apply Nat.leb_gt in E. constructor; [now apply IH|].
      eapply Permutation_Forall; [symmetry; apply insert_by_perm|].
      constructor; [lia|exact Hy].
Qed.

Lemma sorted_desc_sorted : forall (score : PullRequest -> nat) l,
  StronglySorted (fun a b => score b <= score a) (sorted_desc score l).
Proof.
  intros score. induction l as [|x l IH]; [constructor|].
  unfold sorted_desc in *. cbn [fold_right]. now apply insert_by_sorted.
Qed.

Lemma insert_by_stable : forall (score : PullRequest -> nat) v x l,
  filter (fun y => score y =? v) (insert_by score x l)
  = filter (fun y => score y =? v) (x :: l).
Proof.
  intros score v x. induction l as [|y l IH]; cbn [insert_by]; [reflexivity|].
  destruct (score y <=? score x) eqn:E; [reflexivity|].
  apply Nat.leb_gt in E. cbn [filter] in *. rewrite IH.
  destruct (score x =? v) eqn:Ex; [|reflexivity].
  apply Nat.eqb_eq in Ex.
  assert (Ey : (score y =? v) = false) by (apply Nat.eqb_neq; lia).
  now rewrite Ey.
Qed.

Lemma sorted_desc_stable : forall (score : PullRequest -> nat) v l,
  filter (fun y => score y =? v) (sorted_desc score l)
  = filter (fun y => score y =? v) l.
Proof.
  intros score v. induction l as [|x l IH]; [reflexivity|].
  unfold sorted_desc in *. cbn [fold_right]. rewrite insert_by_stable.
  cbn [filter]. now rewrite IH.
Qed.

(** X10.  [_find_fuzzy_matches] returns the pull requests whose title scores
    at least 80 against the identifier, each as often as it is given, the
    best score first, and those of equal score in the order in which they
    were given. *)
Theorem fuzzy_matches_best_first :
  forall (identifier : text) (prs : list PullRequest),
    let score := fun pr => ratio (lower identifier) (lower (title pr)) in
    let found := _find_fuzzy_matches ratio identifier prs in
    Permutation found (filter (fun pr => 80 <=? score pr) prs) /\
    StronglySorted (fun a b => score b <= score a) found /\
    (forall v, filter (fun pr => score pr =? v) found
               = filter (fun pr => (score pr =? v) && (80 <=? score pr)) prs).
Proof.
  intros identifier prs score found. subst found.
  unfold _find_fuzzy_matches. change (fun x : PullRequest =>
    ratio (lower identifier) (lower (title x))) with score.
  split; [apply sorted_desc_perm|].
  split; [apply sorted_desc_sorted|].
  intro v. rewrite (sorted_desc_stable score v).
  subst score. cbv beta. unfold threshold.
  induction prs as [|pr prs IH]; [reflexivity|]. cbn [filter].
  destruct (80 <=? ratio (lower identifier) (lower (title pr)));
    cbn [filter]; rewrite IH;
    destruct (ratio (lower identifier) (lower (title pr)) =? v); reflexivity.
Qed.

End Fuzzy.

End MatchingTheorems.

(* ------------------------------------------------------------------ *)
(** ** Detection and sanitization together *)

Module SanitizerMore.
Import Sanitizer.










End SanitizerMore.

(* ------------------------------------------------------------------ *)
(** ** The detection of the platform *)

Module PlatformTheorems.
Import TextOps Platform PlatformSpec.

Lemma lower_char_idem : forall a, lower_char (lower_char a) = lower_char a.
Proof. intros [[] [] [] [] [] [] [] []]; vm_compute; reflexivity. Qed.

Lemma lower_idem : forall s, lower (lower s) = lower s.
Proof.
  intro s. unfold lower. rewrite map_map. apply map_ext.
  intro a. apply lower_char_idem.
Qed.

Lemma lower_char_not_upper : forall a, is_upper (lower_char a) = false.
Proof. intros [[] [] [] [] [] [] [] []]; vm_compute; reflexivity. Qed.

Lemma contains_in : forall needle s c,
  contains needle s = true -> In c needle -> In c s.
Proof.
  intros needle s c H Hc. apply contains_iff in H.
  destruct H as (p & q & ->). rewrite !in_app_iff. auto.
Qed.

Lemma forallb_fails : forall (A : Type) (f : A -> bool) (l : list A),
  forallb f l = false -> exists x, In x l /\ f x = false.
Proof.
  intros A f. induction l as [|x l IH]; intro H; [discriminate|].
  cbn [forallb] in H. destruct (f x) eqn:E.
  - destruct (IH H) as (y & Hy & Hf). exists y. split; [now right|exact Hf].
  - exists x. split; [now left|exact E].
Qed.

Lemma capital_never_found : forall pattern s,
  plain pattern = false -> contains (str pattern) (lower s) = false.
Proof.
  intros pattern s H. destruct (contains (str pattern) (lower s)) eqn:E;
    [|reflexivity].
  unfold plain in H. apply forallb_fails in H.
  destruct H as (c & Hc & Hup). apply negb_false_iff in Hup.
  pose proof (contains_in _ _ c E Hc) as Hin. unfold lower in Hin.
  apply in_map_iff in Hin. destruct Hin as (x & <- & _).
  now rewrite lower_char_not_upper in Hup.
Qed.

Lemma any_in_plain : forall patterns s,
  any_in patterns (lower s) = any_in (filter plain patterns) (lower s).
Proof.
  intros patterns s. unfold any_in.
  induction patterns as [|p ps IH]; [reflexivity|]. cbn [existsb filter].
  destruct (plain p) eqn:E.
  - cbn [existsb]. now rewrite IH.
  - now rewrite capital_never_found.
Qed.

Lemma score_step_lowercase : forall scores file_path,
  score_step new scores file_path
  = score_step lowercase_service scores file_path.
Proof.
  intros [[a i] b] f. unfold score_step.
  rewrite (any_in_plain (android_file_patterns new)).
  rewrite (any_in_plain (ios_file_patterns new)).
  reflexivity.
Qed.

Lemma fold_left_ext : forall (A B : Type) (f g : A -> B -> A),
  (forall a b, f a b = g a b) ->
  forall l a, fold_left f l a = fold_left g l a.
Proof.
  intros A B f g H. induction l as [|x l IH]; intro a; [reflexivity|].
  cbn [fold_left]. now rewrite H, IH.
Qed.

Lemma detect_from_files_lowercase : forall file_changes,
  _detect_from_files new file_changes
  = _detect_from_files lowercase_service file_changes.
Proof.
  intro fs. unfold _detect_from_files.
  now rewrite (fold_left_ext _ _ _ _ score_step_lowercase).
Qed.

(** X13.  The file patterns [AndroidManifest.xml], [Info.plist], [Podfile]
    and [Package.swift] never count: the paths are compared in lower case,
    so that the service without these patterns detects the same platform
    for every repository and every list of files. *)
Theorem capitalised_patterns_never_count :
  (forall file_changes : list text,
      _detect_from_files new file_changes
      = _detect_from_files lowercase_service file_changes) /\
  (forall (repository : text) (file_changes : option (list text)),
      detect_platform new repository file_changes
      = detect_platform lowercase_service repository file_changes).
Proof.
  split; [exact detect_from_files_lowercase|].
  intros repository file_changes. unfold detect_platform.
  change (android_repo_patterns lowercase_service)
    with (android_repo_patterns new).
  change (ios_repo_patterns lowercase_service) with (ios_repo_patterns new).
  change (backend_repo_patterns lowercase_service)
    with (backend_repo_patterns new).
  destruct file_changes as [[|f fs]|]; try reflexivity.
  now rewrite detect_from_files_lowercase.
Qed.

Lemma java_scores : forall files a i b,
  Forall (fun f => contains (str ".java") (lower f) = true) files ->
  a = b -> i <= a ->
  exists a' i', fold_left (score_step new) files (a, i, b) = (a', i', a')
                /\ i' <= a'.
Proof.
  induction files as [|f fs IH]; intros a i b H Hab Hi.
  - subst b. now exists a, i.
  - inversion H as [|? ? Hf Hfs]; subst. cbn [fold_left].
    unfold score_step at 2.
    assert (Ha : any_in (android_file_patterns new) (lower f) = true).
    { unfold any_in. apply existsb_exists. exists ".java"%string.
      split; [|exact Hf]. cbn. tauto. }
    assert (Hb : any_in (backend_file_patterns new) (lower f) = true).
    { unfold any_in. apply existsb_exists. exists ".java"%string.
      split; [|exact Hf]. cbn. tauto. }
    rewrite Ha, Hb. cbn [bump]. apply IH; [exact Hfs|reflexivity|].
    destruct (any_in (ios_file_patterns new) (lower f)); cbn [bump]; lia.
Qed.

(** X14.  A change in which every path contains [.java], in any case, is
    not classified by [_detect_from_files]: the pattern counts for Android
    and for the backend alike, the two scores tie and the answer is
    [UNKNOWN]. *)
Theorem java_only_changes_are_unknown :
  forall file_changes : list text,
    Forall (fun f => contains (str ".java") (lower f) = true) file_changes ->
    _detect_from_files new file_changes = UNKNOWN.
Proof.
  intros fs H. unfold _detect_from_files.
  destruct (java_scores fs 0 0 0 H eq_refl (le_n 0)) as (a & i & -> & Hi).
  rewrite Nat.ltb_irrefl, andb_false_r.
  assert (E : (a <? i) = false) by (apply Nat.ltb_ge; exact Hi).
  rewrite E. reflexivity.
Qed.

Lemma java_only_changes_are_unknown_witness :
  Forall (fun f => contains (str ".java") (lower f) = true)
    [str "app/src/Main.java"; str "lib/Util.JAVA"] /\
  _detect_from_files new [str "app/src/Main.java"; str "lib/Util.JAVA"]
  = UNKNOWN.
Proof.
  assert (H : Forall (fun f => contains (str ".java") (lower f) = true)
                [str "app/src/Main.java"; str "lib/Util.JAVA"])
    by (repeat constructor).
  split; [exact H|].
  exact (java_only_changes_are_unknown _ H).
Defined.

(** X15.  [detect_platform] looks at the repository and at the paths up to
    case: lowering the case of the name and of every path changes nothing,
    whatever the patterns of the service. *)
Theorem detection_ignores_case :
  forall (self : PlatformDetectionService) (repository : text)
         (file_changes : option (list text)),
    detect_platform self (lower repository)
      (option_map (map lower) file_changes)
    = detect_platform self repository file_changes.
Proof.
  intros self repository file_changes. unfold detect_platform.
  rewrite lower_idem.
  destruct (any_in (android_repo_patterns self) (lower repository));
    [reflexivity|].
  destruct (any_in (ios_repo_patterns self) (lower repository));
    [reflexivity|].
  destruct (any_in (backend_repo_patterns self) (lower repository));
    [reflexivity|].
  destruct file_changes as [[|f fs]|]; try reflexivity.
  cbn [option_map map]. unfold _detect_from_files.
  change (lower f :: map lower fs) with (map lower (f :: fs)).
  assert (E : forall l sc,
             fold_left (score_step self) (map lower l) sc
             = fold_left (score_step self) l sc).
  { induction l as [|x l IH]; intro sc; [reflexivity|].
    cbn [map fold_left]. rewrite IH. f_equal.
    destruct sc as [[a i] b]. unfold score_step. now rewrite lower_idem. }
  now rewrite E.
Qed.

End PlatformTheorems.

(* ------------------------------------------------------------------ *)
(** ** The repositories of the settings *)

Module ConfigTheorems.
Import TextOps Config ConfigSpec.

Lemma lstrip_suffix : forall s, exists p, s = p ++ lstrip s.
Proof.
  induction s as [|a s [p IH]]; [now exists []|]. cbn [lstrip].
  destruct (is_space a).
  - exists (a :: p). cbn [app]. now rewrite <- IH.
  - now exists [].
Qed.

Lemma lstrip_head : forall s a t, lstrip s = a :: t -> is_space a = false.
Proof.
  induction s as [|b s IH]; intros a t H; [discriminate|].
  cbn [lstrip] in H. destruct (is_space b) eqn:E.
  - now apply IH with t.
  - inversion H. now subst.
Qed.

Lemma lstrip_idem : forall s, lstrip (lstrip s) = lstrip s.
Proof.
  intro s. destruct (lstrip s) as [|a t] eqn:E; [reflexivity|].
  cbn [lstrip]. now rewrite (lstrip_head _ _ _ E).
Qed.

Lemma lstrip_in : forall s c, In c (lstrip s) -> In c s.
Proof.
  intros s c H. destruct (lstrip_suffix s) as [p E]. rewrite E.
  apply in_or_app. now right.
Qed.

Lemma strip_in : forall s c, In c (strip s) -> In c s.
Proof.
  intros s c H. unfold strip in H. apply in_rev in H. apply lstrip_in in H.
  apply in_rev in H. now apply lstrip_in.
Qed.

Lemma strip_idem : forall s, strip (strip s) = strip s.
Proof.
  intro s. unfold strip.
  set (u := lstrip s). set (v := lstrip (rev u)).
  assert (E : lstrip (rev v) = rev v).
  { destruct (rev v) as [|a t] eqn:Ev; [reflexivity|].
    cbn [lstrip]. assert (Ha : is_space a = false); [|now rewrite Ha].
    destruct (lstrip_suffix (rev u)) as [p Hp]. fold v in Hp.
    assert (Hv : v = rev t ++ [a])
      by (rewrite <- (rev_involutive v), Ev; reflexivity).
    rewrite Hv in Hp. apply (f_equal (@rev ascii)) in Hp.
    rewrite rev_involutive, !rev_app_distr, rev_involutive in Hp.
    cbn [rev app] in Hp. apply (lstrip_head s a (t ++ rev p)).
    exact Hp. }
  rewrite E, rev_involutive. unfold v. now rewrite lstrip_idem.
Qed.

Lemma lstrip_blank : forall s,
  Forall (fun c => is_space c = true) s -> lstrip s = [].
Proof.
  induction s as [|a s IH]; intro H; [reflexivity|].
  inversion H as [|? ? Ha Hs]; subst. cbn [lstrip]. rewrite Ha. now apply IH.
Qed.

Lemma split_on_nonempty : forall sep s, split_on sep s <> [].
Proof.
  intros sep [|a s]; cbn [split_on]; [discriminate|].
  destruct (Ascii.eqb a sep); [discriminate|].
  destruct (split_on sep s); discriminate.
Qed.

Lemma split_on_pieces : forall (P : ascii -> Prop) sep s,
  Forall P s -> Forall (Forall P) (split_on sep s).
Proof.
  intros P sep. induction s as [|a s IH]; intro H; cbn [split_on].
  - repeat constructor.
  - inversion H as [|? ? Ha Hs]; subst. specialize (IH Hs).
    destruct (Ascii.eqb a sep).
    + constructor; [constructor|exact IH].
    + destruct (split_on sep s) as [|l ls].
      * repeat constructor. exact Ha.
      * inversion IH; subst. constructor; [now constructor|assumption].
Qed.

Lemma split_on_no_sep : forall sep s piece,
  In piece (split_on sep s) -> ~ In sep piece.
Proof.
  intros sep. induction s as [|a s IH]; intros piece H; cbn [split_on] in H.
  - destruct H as [<-|[]]. intros [].
  - destruct (Ascii.eqb a sep) eqn:E.
    + destruct H as [<-|H]; [intros []|now apply IH].
    + apply Ascii.eqb_neq in E. destruct (split_on sep s) as [|l ls].
      * destruct H as [<-|[]]. intros [Hc|[]]. congruence.
      * destruct H as [<-|H].
        -- intros [Hc|Hc]; [congruence|]. revert Hc. apply IH. now left.
        -- apply IH. now right.
Qed.

Lemma split_on_plain : forall sep s, ~ In sep s -> split_on sep s = [s].
Proof.
  intros sep. induction s as [|a s IH]; intro H; [reflexivity|].
  cbn [split_on]. destruct (Ascii.eqb a sep) eqn:E.
  - apply Ascii.eqb_eq in E. subst. elim H. now left.
  - rewrite IH; [reflexivity|]. intro Hs. apply H. now right.
Qed.

Lemma split_on_app : forall sep s t,
  ~ In sep s -> split_on sep (s ++ sep :: t) = s :: split_on sep t.
Proof.
  intros sep. induction s as [|a s IH]; intros t H.
  - cbn [app split_on]. now rewrite Ascii.eqb_refl.
  - cbn [app split_on]. destruct (Ascii.eqb a sep) eqn:E.
    + apply Ascii.eqb_eq in E. subst. elim H. now left.
    + rewrite IH; [reflexivity|]. intro Hs. apply H. now right.
Qed.

Lemma split_on_join : forall sep names,
  names <> [] -> Forall (fun name => ~ In sep name) names ->
  split_on sep (join_on sep names) = names.
Proof.
  intros sep. induction names as [|n [|n' rest] IH]; intros Hne H.
  - now elim Hne.
  - inversion H; subst. now apply split_on_plain.
  - inversion H as [|? ? Hn Hrest]; subst.
    change (join_on sep (n :: n' :: rest))
      with (n ++ sep :: join_on sep (n' :: rest)).
    rewrite split_on_app by exact Hn. f_equal. apply IH; [discriminate|].
    exact Hrest.
Qed.

(** The list that [load_settings] makes of a non-empty value of
    [BITBUCKET_REPOSITORIES]. *)
Lemma configured_list : forall env,
  getenv env "BITBUCKET_REPOSITORIES" [] <> [] ->
  configured env
  = map strip (filter (fun repo => truthy (strip repo))
                      (split_on "," (getenv env "BITBUCKET_REPOSITORIES" []))).
Proof.
  intros env H. unfold configured, load_settings. cbn [snd bitbucket
    repositories].
  destruct (getenv env "BITBUCKET_REPOSITORIES" []); [now elim H|].
  reflexivity.
Qed.

(** X16.  Every repository that [load_settings] returns is a non-empty
    name; when [BITBUCKET_REPOSITORIES] is set to a non-empty value, the
    name moreover has no comma and no white space at its ends. *)
Theorem configured_repositories_are_names :
  forall (env : environ) (r : text),
    In r (configured env) ->
    r <> [] /\
    (getenv env "BITBUCKET_REPOSITORIES" [] <> [] -> clean r).
Proof.
  intros env r H.
  destruct (getenv env "BITBUCKET_REPOSITORIES" []) as [|c0 s0] eqn:E.
  - split; [|intro H0; now elim H0].
    unfold configured, load_settings in H.
    cbn [snd bitbucket repositories] in H. rewrite E in H.
    cbn [truthy negb] in H.
    destruct (getenv env "BITBUCKET_REPOSITORY" []) as [|c1 s1];
      cbn [truthy] in H; [destruct H|].
    destruct H as [<-|[]]. discriminate.
  - rewrite configured_list in H by (rewrite E; discriminate).
    rewrite E in H. apply in_map_iff in H. destruct H as (x & <- & Hx).
    apply filter_In in Hx. destruct Hx as [Hx Ht].
    assert (Hne : strip x <> [])
      by (destruct (strip x); [discriminate|discriminate]).
    split; [exact Hne|]. intros _. split; [exact Hne|]. split.
    + intro Hc. apply strip_in in Hc. revert Hc.
      now apply (split_on_no_sep _ _ _ Hx).
    + apply strip_idem.
Qed.

Lemma configured_repositories_are_names_witness :
  let env : environ := fun name =>
    if String.eqb name "BITBUCKET_REPOSITORIES"
    then Some (str " api , web,,") else None in
  In (str "web") (configured env) /\
  str "web" <> [] /\
  (getenv env "BITBUCKET_REPOSITORIES" [] <> [] -> clean (str "web")).
Proof.
  intro env.
  assert (H : In (str "web") (configured env))
    by (vm_compute; right; left; reflexivity).
  split; [exact H|].
  exact (configured_repositories_are_names env (str "web") H).
Defined.

(** X17.  Clean names come back: when [BITBUCKET_REPOSITORIES] is the
    names of a non-empty list joined by commas, each name being non-empty,
    free of commas and without white space at its ends, [load_settings]
    returns exactly that list, whatever [BITBUCKET_REPOSITORY] is. *)
Theorem joined_names_are_read_back :
  forall (env : environ) (names : list text),
    names <> [] ->
    Forall clean names ->
    env "BITBUCKET_REPOSITORIES"%string = Some (join_on "," names) ->
    configured env = names.
Proof.
  intros env names Hne Hclean Henv.
  assert (Eg : getenv env "BITBUCKET_REPOSITORIES" [] = join_on "," names)
    by (unfold getenv; now rewrite Henv).
  assert (Hj : join_on "," names <> []).
  { destruct names as [|n [|n' rest]]; [now elim Hne| |].
    - inversion Hclean as [|? ? [Hn _] _]; subst. exact Hn.
    - inversion Hclean as [|? ? [Hn _] _]; subst.
      destruct n; [now elim Hn|discriminate]. }
  rewrite configured_list by (now rewrite Eg). rewrite Eg.
  rewrite split_on_join.
  - clear Hne Henv Eg Hj. induction Hclean as [|n ns [Hn [_ Hs]] _ IH];
      [reflexivity|].
    cbn [filter]. rewrite Hs. destruct n as [|c n]; [now elim Hn|].
    cbn [truthy map]. now rewrite Hs, IH.
  - exact Hne.
  - eapply Forall_impl; [|exact Hclean]. intros n [_ [Hc _]]. exact Hc.
Qed.

Lemma joined_names_are_read_back_witness :
  let names := [str "api"; str "web app"] in
  let env : environ := fun name =>
    if String.eqb name "BITBUCKET_REPOSITORIES"
    then Some (join_on "," names) else Some (str "other") in
  names <> [] /\ Forall clean names /\
  env "BITBUCKET_REPOSITORIES"%string = Some (join_on "," names) /\
  configured env = names.
Proof.
  intros names env.
  assert (H1 : names <> []) by discriminate.
  assert (H2 : Forall clean names).
  { repeat constructor; try discriminate; try reflexivity;
      intro H; cbn in H; repeat (destruct H as [H|H]; [discriminate H|]);
      exact H. }
  assert (H3 : env "BITBUCKET_REPOSITORIES"%string
               = Some (join_on "," names)) by reflexivity.
  split; [exact H1|]. split; [exact H2|]. split; [exact H3|].
  exact (joined_names_are_read_back env names H1 H2 H3).
Defined.

(** X18.  A value of [BITBUCKET_REPOSITORIES] that is not empty and holds
    only commas and white space configures no repository: the single
    repository of [BITBUCKET_REPOSITORY] is not used in its place. *)
Theorem blank_list_hides_single_repository :
  forall env : environ,
    getenv env "BITBUCKET_REPOSITORIES" [] <> [] ->
    Forall (fun c => is_space c = true \/ c = ","%char)
           (getenv env "BITBUCKET_REPOSITORIES" []) ->
    configured env = [].
Proof.
  intros env Hne Hblank. rewrite configured_list by exact Hne.
  set (ps := split_on "," (getenv env "BITBUCKET_REPOSITORIES" [])).
  assert (Hps : Forall (Forall (fun c => is_space c = true)) ps).
  { pose proof (split_on_pieces _ "," _ Hblank) as H. fold ps in H.
    apply Forall_forall. intros piece Hp. apply Forall_forall. intros c Hc.
    pose proof (proj1 (Forall_forall _ _) H piece Hp) as Hpc.
    destruct (proj1 (Forall_forall _ _) Hpc c Hc) as [Hs|Hcomma];
      [exact Hs|].
    subst c. exfalso. revert Hc. now apply (split_on_no_sep "," _ _ Hp). }
  clearbody ps. induction Hps as [|p ps Hp _ IH]; [reflexivity|].
  assert (E : strip p = [])
    by (unfold strip; now rewrite (lstrip_blank _ Hp)).
  cbn [filter]. rewrite E. exact IH.
Qed.

Lemma blank_list_hides_single_repository_witness :
  let env : environ := fun name =>
    if String.eqb name "BITBUCKET_REPOSITORIES" then Some (str " , ")
    else Some (str "api") in
  getenv env "BITBUCKET_REPOSITORIES" [] <> [] /\
  Forall (fun c => is_space c = true \/ c = ","%char)
         (getenv env "BITBUCKET_REPOSITORIES" []) /\
  configured env = [].
Proof.
  intro env.
  assert (H1 : getenv env "BITBUCKET_REPOSITORIES" [] <> [])
    by (vm_compute; discriminate).
  assert (H2 : Forall (fun c => is_space c = true \/ c = ","%char)
                 (getenv env "BITBUCKET_REPOSITORIES" [])).
  { change (getenv env "BITBUCKET_REPOSITORIES" []) with (str " , ").
    repeat (constructor;
            [first [left; reflexivity | right; reflexivity]|]).
    constructor. }
  split; [exact H1|]. split; [exact H2|].
  exact (blank_list_hides_single_repository env H1 H2).
Defined.

End ConfigTheorems.

(* ------------------------------------------------------------------ *)
(** ** The origin of the locations *)

Module LocationTheorems.
Import LocationSpec.

Lemma added_line_shape : forall line,
  matches addition_pattern line = true -> "+"%char :: tl line = line.
Proof.
  intros line H. rewrite matches_addition in H. apply startswith_iff in H.
  destruct H as [t ->]. reflexivity.
Qed.

Lemma truthy_nonempty : forall s, negb (truthy s) = false -> s <> [].
Proof. intros [|a s] H; [discriminate|discriminate]. Qed.

Ltac step_origin :=
  match goal with
  | |- context [match ?x with _ => _ end] =>
      let E := fresh "E" in destruct x eqn:E
  end.

Lemma parse_diff_step_origin : forall lines st line,
  In line lines ->
  Forall (from_added_line lines) (locations st) ->
  Forall (from_added_line lines) (locations (parse_diff_step st line)).
Proof.
  intros lines st line Hl H. unfold parse_diff_step.
  repeat step_origin; cbn [locations]; try exact H.
  apply Forall_app. split; [exact H|]. constructor; [|constructor].
  unfold from_added_line. cbn [is_addition file_path content].
  split; [reflexivity|]. split; [now apply truthy_nonempty|].
  now rewrite added_line_shape.
Qed.

Lemma parse_original_diff_step_origin : forall lines st line,
  In line lines ->
  Forall (from_added_line lines) (locations st) ->
  Forall (from_added_line lines)
         (locations (parse_original_diff_step st line)).
Proof.
  intros lines st line Hl H. unfold parse_original_diff_step.
  repeat step_origin; cbn [locations]; try exact H.
  apply Forall_app. split; [exact H|]. constructor; [|constructor].
  unfold from_added_line. cbn [is_addition file_path content].
  split; [reflexivity|]. split; [now apply truthy_nonempty|].
  now rewrite added_line_shape.
Qed.

Lemma fold_origin : forall (step : state -> text -> state) lines,
  (forall st line, In line lines ->
     Forall (from_added_line lines) (locations st) ->
     Forall (from_added_line lines) (locations (step st line))) ->
  forall xs st, incl xs lines ->
    Forall (from_added_line lines) (locations st) ->
    Forall (from_added_line lines) (locations (fold_left step xs st)).
Proof.
  intros step lines Hstep. induction xs as [|x xs IH]; intros st Hi H;
    [exact H|].
  cbn [fold_left]. apply IH.
  - intros y Hy. apply Hi. now right.
  - apply Hstep; [|exact H]. apply Hi. now left.
Qed.

(** X19.  Every location that [parse_diff] or [parse_original_diff] returns
    is an addition to a file with a non-empty path, and its content is a
    line of the diff that starts with a plus sign, without that sign. *)
Theorem locations_are_added_lines :
  forall (diff : text) (loc : DiffLocation),
    In loc (parse_diff (Some diff)) \/
    In loc (parse_original_diff (Some diff)) ->
    from_added_line (split_lines diff) loc.
Proof.
  intros diff loc H.
  assert (H0 : Forall (from_added_line (split_lines diff))
                      (locations initial)) by constructor.
  destruct H as [H|H].
  - unfold parse_diff in H. destruct diff as [|a d]; [destruct H|].
    revert H. apply Forall_forall. apply fold_origin; try exact H0.
    + apply parse_diff_step_origin.
    + apply incl_refl.
  - unfold parse_original_diff in H. destruct diff as [|a d]; [destruct H|].
    revert H. apply Forall_forall. apply fold_origin; try exact H0.
    + apply parse_original_diff_step_origin.
    + apply incl_refl.
Qed.

Lemma locations_are_added_lines_witness :
  In (mkLocation (str "src/App.swift") 2 (str "let b = 2") true)
     (parse_diff (Some (str "diff --git a/src/App.swift b/src/App.swift
@@ -1,2 +1,3 @@
 let a = 1
+let b = 2"))) /\
  from_added_line
    (split_lines (str "diff --git a/src/App.swift b/src/App.swift
@@ -1,2 +1,3 @@
 let a = 1
+let b = 2"))
    (mkLocation (str "src/App.swift") 2 (str "let b = 2") true).
Proof.
  assert (H : In (mkLocation (str "src/App.swift") 2 (str "let b = 2") true)
     (parse_diff (Some (str "diff --git a/src/App.swift b/src/App.swift
@@ -1,2 +1,3 @@
 let a = 1
+let b = 2")))) by (vm_compute; left; reflexivity).
  split; [exact H|].
  exact (locations_are_added_lines _ _ (or_introl H)).
Defined.

End LocationTheorems.

(* ------------------------------------------------------------------ *)
(** ** The posting of comments *)

Module PostingTheorems.
Import Posting PostingSpec.

Lemma formatted_has_prefix : forall comment,
  startswith prefix (formatted_comment comment) = true.
Proof.
  intro comment. unfold formatted_comment.
  destruct (startswith prefix (content comment)) eqn:E; cbn [negb].
  - exact E.
  - apply startswith_iff. eexists. reflexivity.
Qed.

Lemma post_step_skipped : forall post_comment st comment,
  postable comment = false -> post_step post_comment st comment = st.
Proof.
  intros post_comment st comment H. unfold post_step, postable in *.
  destruct (severity comment); cbn in *; try reflexivity;
    destruct (is_summary comment); try discriminate; reflexivity.
Qed.

Lemma post_step_postable : forall post_comment st comment,
  postable comment = true ->
  calls (post_step post_comment st comment) = calls st ++ [call_of comment]
  /\ List.length (posted_comments (post_step post_comment st comment))
     + List.length (failed_comments (post_step post_comment st comment))
     = S (List.length (posted_comments st)
          + List.length (failed_comments st)).
Proof.
  intros post_comment st comment H. unfold post_step, postable in *.
  fold (call_of comment).
  destruct (severity comment); cbn in H; try discriminate;
    destruct (is_summary comment); try discriminate; cbn [value text_eqb str
      list_ascii_of_string Ascii.eqb Bool.eqb andb orb];
    destruct (post_comment (calls st) (call_of comment)) as [[|]|m];
    cbn [calls posted_comments failed_comments];
    rewrite ?length_app; cbn [List.length]; split; try reflexivity; lia.
Qed.

Lemma fold_post : forall post_comment objects st,
  let st' := fold_left (post_step post_comment) objects st in
  calls st' = calls st ++ map call_of (filter postable objects) /\
  List.length (posted_comments st') + List.length (failed_comments st')
  = List.length (posted_comments st) + List.length (failed_comments st)
    + List.length (filter postable objects).
Proof.
  intros post_comment. induction objects as [|c cs IH]; intro st; cbn zeta.
  - cbn [fold_left filter map List.length]. rewrite app_nil_r.
    split; [reflexivity|lia].
  - cbn [fold_left filter]. specialize (IH (post_step post_comment st c)).
    cbn zeta in IH. destruct IH as [IH1 IH2].
    destruct (postable c) eqn:E.
    + destruct (post_step_postable post_comment st c E) as [H1 H2].
      rewrite IH1, IH2, H1, H2. cbn [map List.length].
      rewrite <- app_assoc. split; [reflexivity|lia].
    + rewrite (post_step_skipped post_comment st c E) in *.
      split; assumption.
Qed.

(** X20.  [post_review_comments] calls the service for the comments of
    severity P0 or P1 that are not summaries, once each and in their
    order, whatever the service answers; comments of severity P2 and
    summaries are never sent, nothing is sent without the confirmation or
    when a severity is refused, and every comment sent starts with
    [[AI - Review]]. *)
Theorem only_postable_comments_are_sent :
  forall (post_comment : service) (comments : list comment_data)
         (confirmation : bool),
    fst (post_review_comments post_comment comments confirmation)
    = (if confirmation
       then match comment_objects comments with
            | Some objects => map call_of (filter postable objects)
            | None => []
            end
       else []) /\
    Forall (fun c => startswith prefix (sent c) = true)
           (fst (post_review_comments post_comment comments confirmation)).
Proof.
  intros post_comment comments confirmation.
  assert (E : fst (post_review_comments post_comment comments confirmation)
    = (if confirmation
       then match comment_objects comments with
            | Some objects => map call_of (filter postable objects)
            | None => []
            end
       else [])).
  { unfold post_review_comments. destruct confirmation; [|reflexivity].
    cbn [negb]. destruct (comment_objects comments) as [objects|];
      [|reflexivity].
    cbn [fst].
    now destruct (fold_post post_comment objects (mkP [] [] [])) as [-> _]. }
  split; [exact E|]. rewrite E. destruct confirmation; [|constructor].
  destruct (comment_objects comments) as [objects|]; [|constructor].
  apply Forall_forall. intros c Hc. apply in_map_iff in Hc.
  destruct Hc as (comment & <- & _). apply formatted_has_prefix.
Qed.

(** X21.  When [post_review_comments] goes through, every call to the
    service is counted once, as posted or as failed, and the answer
    reports success exactly when none failed. *)
Theorem every_call_is_counted :
  forall (post_comment : service) (comments : list comment_data)
         (confirmation success : bool) (comments_posted comments_failed : nat)
         (posted : list (text * text * option Z))
         (failed : list (text * text)),
    snd (post_review_comments post_comment comments confirmation)
    = Done success comments_posted comments_failed posted failed ->
    comments_posted + comments_failed
    = List.length
        (fst (post_review_comments post_comment comments confirmation)) /\
    comments_posted = List.length posted /\
    comments_failed = List.length failed /\
    success = (comments_failed =? 0).
Proof.
  intros post_comment comments confirmation success p f posted failed H.
  unfold post_review_comments in *. destruct confirmation; [|discriminate].
  cbn [negb] in *. destruct (comment_objects comments) as [objects|];
    [|discriminate].
  cbn [fst snd] in *. inversion H; subst. clear H.
  destruct (fold_post post_comment objects (mkP [] [] [])) as [H1 H2].
  cbn zeta in H1, H2. rewrite H1, H2. cbn [calls posted_comments
    failed_comments List.length app]. rewrite length_map. repeat split.
Qed.

Lemma every_call_is_counted_witness :
  let post_comment : service :=
    fun before c => match before with
                    | [] => Returned true
                    | _ :: _ => Raised (str "404 Not Found")
                    end in
  let comments :=
    [mkData (str "crash") (str "P0") (Some 12%Z) (Some (str "a.py")) None;
     mkData (str "typo") (str "P2") None None None;
     mkData (str "leak") (str "P1") None None (Some false)] in
  snd (post_review_comments post_comment comments true)
  = Done false 1 1
      [(str "P0", str "crash", Some 12%Z)]
      [(str "P1", str "PR not found - check PR ID and repository")] /\
  1 + 1
  = List.length (fst (post_review_comments post_comment comments true)) /\
  1 = List.length [(str "P0", str "crash", Some 12%Z)] /\
  1 = List.length
        [(str "P1", str "PR not found - check PR ID and repository")] /\
  false = (1 =? 0).
Proof.
  intros post_comment comments.
  assert (H : snd (post_review_comments post_comment comments true)
    = Done false 1 1
      [(str "P0", str "crash", Some 12%Z)]
      [(str "P1", str "PR not found - check PR ID and repository")])
    by (vm_compute; reflexivity).
  split; [exact H|].
  exact (every_call_is_counted post_comment comments true false 1 1 _ _ H).
Defined.

(** X22.  No comment that [parse_and_preview_comments] or
    [auto_post_review_comments] makes for an issue is posted inline: it
    has no path and no line, or the path [Unknown] and the line 0, and
    [post_comment] attaches a comment to a line only when the line is not
    0 and the path is given. *)
Theorem preview_comments_are_never_inline :
  forall (feedback : text) (a : Preview.answer)
         (path : option text) (line : option Z) (body level sent : text),
    Preview.parse_and_preview_comments feedback = Some a \/
    Preview.auto_post_review_comments feedback = Some a ->
    In (Preview.Inline path line body level) (Preview.comments a) ->
    inline (payload_of (mkCall sent line path)) = None.
Proof.
  intros feedback a path line body level sent H Hin.
  destruct H as [H|H].
  - destruct (IssueTheorems.preview_of_shape None None _ a
                (IssueTheorems.ai_issues_labelled feedback) H)
      as (_ & Hall & _).
    pose proof (proj1 (Forall_forall _ _) Hall _ Hin) as He.
    cbn in He. destruct He as (-> & -> & _). reflexivity.
  - destruct (IssueTheorems.preview_of_shape (Some unknown) (Some 0%Z) _ a
                (IssueTheorems.review_issues_labelled feedback) H)
      as (_ & Hall & _).
    pose proof (proj1 (Forall_forall _ _) Hall _ Hin) as He.
    cbn in He. destruct He as (-> & -> & _). reflexivity.
Qed.

Lemma preview_comments_are_never_inline_witness :
  let feedback := str "P1: leak" in
  let i := mkIssue (str "P1") (str "Important Issue") feedback []
                   (Some unknown) (Some 0%Z) in
  let a := Preview.mkAnswer 2 (0, 1, 0)
             [Preview.issue_comment i; Preview.Summary 1 0 1 0] in
  (Preview.parse_and_preview_comments feedback = Some a \/
   Preview.auto_post_review_comments feedback = Some a) /\
  In (Preview.Inline (Some unknown) (Some 0%Z) (Preview.issue_content i)
                     (str "P1"))
     (Preview.comments a) /\
  inline (payload_of (mkCall (str "[AI - Review] P1: leak") (Some 0%Z)
                             (Some unknown))) = None.
Proof.
  intros feedback i a.
  assert (H : Preview.parse_and_preview_comments feedback = Some a \/
              Preview.auto_post_review_comments feedback = Some a)
    by (right; vm_compute; reflexivity).
  assert (Hin : In (Preview.Inline (Some unknown) (Some 0%Z)
                      (Preview.issue_content i) (str "P1"))
                   (Preview.comments a)) by (left; reflexivity).
  split; [exact H|]. split; [exact Hin|].
  exact (preview_comments_are_never_inline feedback a (Some unknown)
           (Some 0%Z) (Preview.issue_content i) (str "P1")
           (str "[AI - Review] P1: leak") H Hin).
Defined.

End PostingTheorems.
